(** * nap: a master/slave router over physical databases (db.go)

    A shallow embedding of [db.go]: the logical database [DB], the
    round-robin choice of a slave, the routed operations and [Open].
    The physical layer (sqlx) is a parameter of the development: every
    call that reaches it is recorded in a trace, and what it answers is
    left to an oracle. *)

From Stdlib Require Import ZArith String Ascii Lia.
From stdpp Require Import base list.

Open Scope Z_scope.

(** ** Go's fixed-width integers

    [int] is taken at 64 bits, [uint64] is 64 bits; both live in [Z] with
    the wrap-around written out. *)
Module GoInt.

Definition uint64_mod : Z := 2 ^ 64.
Definition int_max : Z := 2 ^ 63 - 1.
Definition int_min : Z := - 2 ^ 63.

Definition is_uint64 (x : Z) : Prop := 0 <= x < uint64_mod.
Definition is_int (x : Z) : Prop := int_min <= x <= int_max.

(** The conversion [uint64(x)]. *)
Definition to_uint64 (x : Z) : Z := x mod uint64_mod.

(** The conversion [int(x)]: two's complement. *)
Definition to_int (x : Z) : Z := (x + 2 ^ 63) mod uint64_mod - 2 ^ 63.

(** [x - y] at type [int]. *)
Definition int_sub (x y : Z) : Z := to_int (x - y).

(** [x + y] at type [uint64]. *)
Definition uint64_add (x y : Z) : Z := to_uint64 (x + y).

End GoInt.

(** ** Computations that may panic

    A state monad whose runs either panic (index out of range, nil
    dereference, division by zero) or return a value and the next state. *)
Inductive Res (S A : Type) : Type :=
| Panic : Res S A
| Ret (a : A) (s : S) : Res S A.
Arguments Panic {S A}.
Arguments Ret {S A} a s.

Definition M (S A : Type) : Type := S -> Res S A.

Definition ret {S A} (a : A) : M S A := fun s => Ret a s.

Definition bind {S A B} (m : M S A) (f : A -> M S B) : M S B :=
  fun s => match m s with
           | Panic => Panic
           | Ret a s' => f a s'
           end.

Definition panic {S A} : M S A := fun _ => Panic.

Declare Scope go_scope.
Delimit Scope go_scope with go.
Notation "x <- m ;; k" := (bind m (fun x => k))
  (at level 100, m at next level, right associativity) : go_scope.
Notation "m ;;; k" := (bind m (fun _ => k))
  (at level 100, right associativity) : go_scope.
Open Scope go_scope.

(** [for _, x := range xs { body x }] *)
Fixpoint for_each {S A} (xs : list A) (body : A -> M S unit) : M S unit :=
  match xs with
  | [] => ret tt
  | x :: xs' => body x ;;; for_each xs' body
  end.

(** ** strings.Split at a one-byte separator

    [Split s sep] cuts [s] at every occurrence of [sep]; a string without
    the separator, the empty string included, is returned whole. *)
Fixpoint Split (s : string) (sep : ascii) : list string :=
  match s with
  | EmptyString => [EmptyString]
  | String c s' =>
      if Ascii.eqb c sep then EmptyString :: Split s' sep
      else match Split s' sep with
           | seg :: rest => String c seg :: rest
           | [] => [String c EmptyString]
           end
  end.

Definition semicolon : ascii := ";"%char.

(** How many times the byte [sep] occurs in [s]. *)
Fixpoint occurrences (sep : ascii) (s : string) : nat :=
  match s with
  | EmptyString => O
  | String c s' =>
      if Ascii.eqb c sep then S (occurrences sep s') else occurrences sep s'
  end.

(** ** A physical layer to run the model on

    Handles are numbers; a data source name opens to its length, except
    [down], which is refused; a call answers with its handle plus the
    length of the history before it, and never with an error. *)
Module Mock.

Definition sqlx_Open (driverName dataSourceName : string) : nat + string :=
  if String.eqb dataSourceName "down" then inr "refused"%string
  else inl (String.length dataSourceName).

Definition phys {E C : Type} (tr : list E) (h : nat) (c : C) : nat :=
  (h + length tr)%nat.

Definition reply_error (r : nat) : option string := None.

End Mock.

(** ** The logical database and the physical layer *)
Section Router.

(** What sqlx supplies: [handle] names an opened physical database (the
    target of a pointer to [sqlx.DB]), [value] is an [interface{}] argument,
    [reply] is whatever a physical call hands back (results, rows,
    statements, transactions, drivers, errors), [err] is a non-nil
    [error]. *)
Context {handle value reply err : Type}.

(** A method call on a physical database. *)
Inductive Call : Type :=
| CallClose
| CallDriver
| CallBegin
| CallExec (query : string) (args : list value)
| CallPing
| CallSetMaxIdleConns (n : Z)
| CallSetMaxOpenConns (n : Z)
| CallSetConnMaxLifetime (d : Z)
| CallPreparex (query : string)
| CallSelect (dest : value) (query : string) (args : list value)
| CallQueryx (query : string) (args : list value).

(** What the physical layer has been asked so far, oldest first. *)
Inductive Event : Type :=
| EvOpen (driverName dataSourceName : string)
| EvCall (h : handle) (c : Call).

(** [type DB struct]: a slot of [pdbs] is a pointer, [None] is nil. *)
Record DB : Type := mkDB {
  pdbs : list (option handle);
  count : Z
}.

(** The object a [DB] pointer refers to, together with the trace. *)
Record World : Type := mkWorld {
  w_db : DB;
  w_trace : list Event
}.

(** [sqlx.Open]: a handle, or an error with a nil pointer. *)
Variable sqlx_Open : string -> string -> handle + err.
(** The answer of a physical database to a call, given the history. *)
Variable phys : list Event -> handle -> Call -> reply.
(** The [error] component of an answer, [None] for nil. *)
Variable reply_error : reply -> option err.

Definition len {A} (l : list A) : Z := Z.of_nat (length l).

(** [l[i]], panicking out of range. *)
Definition index {S A} (l : list A) (i : Z) : M S A :=
  if i <? 0 then panic
  else match l !! Z.to_nat i with
       | Some x => ret x
       | None => panic
       end.

(** Following a pointer, panicking on nil. *)
Definition deref {S} (p : option handle) : M S handle :=
  match p with
  | Some h => ret h
  | None => panic
  end.

Definition load_pdbs : M World (list (option handle)) :=
  fun w => Ret (pdbs (w_db w)) w.

(** [db.pdbs[i] = p] *)
Definition store_pdb (i : Z) (p : option handle) : M World unit :=
  fun w =>
    let db := w_db w in
    if (i <? 0) || (len (pdbs db) <=? i) then Panic
    else Ret tt (mkWorld (mkDB (<[Z.to_nat i := p]> (pdbs db)) (count db))
                         (w_trace w)).

Definition log (e : Event) : M World unit :=
  fun w => Ret tt (mkWorld (w_db w) (w_trace w ++ [e])).

(** A method call through a pointer to [sqlx.DB]. *)
Definition method (p : option handle) (c : Call) : M World reply :=
  h <- deref p ;;
  fun w => Ret (phys (w_trace w) h c)
               (mkWorld (w_db w) (w_trace w ++ [EvCall h c])).

(** [atomic.AddUint64(&db.count, delta)]: the new value. *)
Definition atomic_AddUint64_count (delta : Z) : M World Z :=
  fun w =>
    let db := w_db w in
    let v := GoInt.uint64_add (count db) delta in
    Ret v (mkWorld (mkDB (pdbs db) v) (w_trace w)).

(** [x % y] at [uint64]; a zero divisor panics. *)
Definition uint64_rem {S} (x y : Z) : M S Z :=
  if y =? 0 then panic else ret (x mod y).

(** [DB.slave]: the index of the physical database to read from. *)
Definition slave (n : Z) : M World Z :=
  if n <=? 1 then ret 0
  else
    c <- atomic_AddUint64_count 1 ;;
    r <- uint64_rem c (GoInt.to_uint64 (GoInt.int_sub n 1)) ;;
    ret (GoInt.to_int (GoInt.uint64_add 1 r)).

(** [DB.Master] *)
Definition Master : M World (option handle) :=
  ps <- load_pdbs ;; index ps 0.

(** [DB.Slave] *)
Definition Slave : M World (option handle) :=
  ps <- load_pdbs ;;
  i <- slave (len ps) ;;
  index ps i.

(** [DB.Driver] *)
Definition Driver : M World reply :=
  ps <- load_pdbs ;; p <- index ps 0 ;; method p CallDriver.

(** [DB.Begin]: a transaction on the master. *)
Definition Begin : M World reply :=
  ps <- load_pdbs ;; p <- index ps 0 ;; method p CallBegin.

(** [DB.Exec] *)
Definition Exec (query : string) (args : list value) : M World reply :=
  ps <- load_pdbs ;; p <- index ps 0 ;; method p (CallExec query args).

(** [DB.Preparex] *)
Definition Preparex (query : string) : M World reply :=
  p <- Master ;; method p (CallPreparex query).

(** [DB.PreparexSlave] *)
Definition PreparexSlave (query : string) : M World reply :=
  p <- Slave ;; method p (CallPreparex query).

(** [DB.Select] *)
Definition Select (dest : value) (query : string) (args : list value)
  : M World reply :=
  p <- Slave ;; method p (CallSelect dest query args).

(** [DB.QueryxSlave] *)
Definition QueryxSlave (query : string) (args : list value) : M World reply :=
  p <- Slave ;; method p (CallQueryx query args).

(** [for i := range db.pdbs { db.pdbs[i].m(...) }] *)
Definition each_pdb (c : Call) : M World unit :=
  ps <- load_pdbs ;;
  for_each (seq 0 (length ps))
    (fun i => ps' <- load_pdbs ;;
              p <- index ps' (Z.of_nat i) ;;
              method p c ;;; ret tt).

(** [DB.SetMaxIdleConns] *)
Definition SetMaxIdleConns (n : Z) : M World unit :=
  each_pdb (CallSetMaxIdleConns n).

(** [DB.SetMaxOpenConns] *)
Definition SetMaxOpenConns (n : Z) : M World unit :=
  each_pdb (CallSetMaxOpenConns n).

(** [DB.SetConnMaxLifetime] *)
Definition SetConnMaxLifetime (d : Z) : M World unit :=
  each_pdb (CallSetConnMaxLifetime d).

(** *** scatter *)

(** What the runtime decides when [scatter] runs: the order in which the
    invocations take effect ([picks], read as successive choices among
    the indices still pending) and which failure is reported. *)
Record Sched : Type := mkSched {
  picks : list nat;
  choice : nat
}.

Fixpoint arrange (fuel : nat) (ps : list nat) (pending : list nat)
  : list nat :=
  match fuel with
  | O => []
  | S fuel' =>
      let j := Nat.modulo (hd O ps) (length pending) in
      match pending !! j with
      | Some i => i :: arrange fuel' (tl ps) (delete j pending)
      | None => []
      end
  end.

Definition order (sc : Sched) (n : nat) : list nat :=
  arrange n (picks sc) (seq 0 n).

(** Runs [work] at each index of [idxs] and gathers the failures. *)
Fixpoint gather {S} (work : Z -> M S (option err)) (idxs : list nat)
  : M S (list err) :=
  match idxs with
  | [] => ret []
  | i :: rest =>
      e <- work (Z.of_nat i) ;;
      es <- gather work rest ;;
      ret (match e with Some x => x :: es | None => es end)
  end.

Definition pick_failure (c : nat) (fails : list err) : option err :=
  fails !! Nat.modulo c (length fails).

(** Modelled from the spec: [scatter], whose body is not in db.go.  It
    runs [work] once per index in [0..count-1], waits for every
    invocation, and returns no error when all succeed and one of the
    failures otherwise.  The invocations are taken one at a time in the
    order the schedule gives. *)
Definition scatter {S} (sc : Sched) (n : Z) (work : Z -> M S (option err))
  : M S (option err) :=
  fails <- gather work (order sc (Z.to_nat n)) ;;
  ret (pick_failure (choice sc) fails).

(** *** Open, Close, Ping *)

(** The function literal [Open] hands to [scatter]. *)
Definition open_one (driverName : string) (conns : list string) (i : Z)
  : M World (option err) :=
  c <- index conns i ;;
  log (EvOpen driverName c) ;;;
  match sqlx_Open driverName c with
  | inl h => store_pdb i (Some h) ;;; ret None
  | inr e => store_pdb i None ;;; ret (Some e)
  end.

(** [Open]: the pair of Go results, a nil [DB] pointer being [None]. *)
Definition Open (sc : Sched) (driverName dataSourceNames : string)
  : M (list Event) (option DB * option err) :=
  fun tr =>
    let conns := Split dataSourceNames semicolon in
    let db := mkDB (replicate (length conns) None) 0 in
    match scatter sc (len (pdbs db)) (open_one driverName conns)
                  (mkWorld db tr) with
    | Panic => Panic
    | Ret (Some e) w => Ret (None, Some e) (w_trace w)
    | Ret None w => Ret (Some (w_db w), None) (w_trace w)
    end.

(** The function literal [Close] and [Ping] hand to [scatter]. *)
Definition call_one (c : Call) (i : Z) : M World (option err) :=
  ps <- load_pdbs ;;
  p <- index ps i ;;
  r <- method p c ;;
  ret (reply_error r).

(** [DB.Close] *)
Definition Close (sc : Sched) : M World (option err) :=
  ps <- load_pdbs ;; scatter sc (len ps) (call_one CallClose).

(** [DB.Ping] *)
Definition Ping (sc : Sched) : M World (option err) :=
  ps <- load_pdbs ;; scatter sc (len ps) (call_one CallPing).

(** *** The operations as data *)

Inductive Op : Type :=
| OpDriver
| OpBegin
| OpExec (query : string) (args : list value)
| OpPing (sc : Sched)
| OpSetMaxIdleConns (n : Z)
| OpSetMaxOpenConns (n : Z)
| OpSetConnMaxLifetime (d : Z)
| OpSlave
| OpMaster
| OpPreparex (query : string)
| OpPreparexSlave (query : string)
| OpSelect (dest : value) (query : string) (args : list value)
| OpQueryxSlave (query : string) (args : list value).

Inductive Out : Type :=
| OutReply (r : reply)
| OutPtr (p : option handle)
| OutErr (e : option err)
| OutUnit.

Definition run_op (o : Op) : M World Out :=
  match o with
  | OpDriver => r <- Driver ;; ret (OutReply r)
  | OpBegin => r <- Begin ;; ret (OutReply r)
  | OpExec q args => r <- Exec q args ;; ret (OutReply r)
  | OpPing sc => e <- Ping sc ;; ret (OutErr e)
  | OpSetMaxIdleConns n => SetMaxIdleConns n ;;; ret OutUnit
  | OpSetMaxOpenConns n => SetMaxOpenConns n ;;; ret OutUnit
  | OpSetConnMaxLifetime d => SetConnMaxLifetime d ;;; ret OutUnit
  | OpSlave => p <- Slave ;; ret (OutPtr p)
  | OpMaster => p <- Master ;; ret (OutPtr p)
  | OpPreparex q => r <- Preparex q ;; ret (OutReply r)
  | OpPreparexSlave q => r <- PreparexSlave q ;; ret (OutReply r)
  | OpSelect dest q args => r <- Select dest q args ;; ret (OutReply r)
  | OpQueryxSlave q args => r <- QueryxSlave q args ;; ret (OutReply r)
  end.

(** The operations that read from a slave. *)
Definition selects (o : Op) : bool :=
  match o with
  | OpSlave | OpPreparexSlave _ | OpSelect _ _ _ | OpQueryxSlave _ _ => true
  | _ => false
  end.

(** [k] calls of [slave n] in a row, with what each returned. *)
Fixpoint slave_calls (k : nat) (n : Z) : M World (list Z) :=
  match k with
  | O => ret []
  | S k' => i <- slave n ;; rest <- slave_calls k' n ;; ret (i :: rest)
  end.

(** The object once [atomic.AddUint64(&db.count, 1)] has run. *)
Definition bump (db : DB) : DB :=
  mkDB (pdbs db) (GoInt.uint64_add (count db) 1).

(** What a physical database was opened to, and the error otherwise. *)
Definition opened (driverName c : string) : option handle :=
  match sqlx_Open driverName c with
  | inl h => Some h
  | inr _ => None
  end.

Definition open_error (driverName c : string) : option err :=
  match sqlx_Open driverName c with
  | inl _ => None
  | inr e => Some e
  end.

(** A [DB] in use: at least one physical database, none of them nil, a
    slice no longer than an [int] can count, a counter within [uint64]. *)
Definition live (db : DB) : Prop :=
  pdbs db <> [] /\
  Forall is_Some (pdbs db) /\
  len (pdbs db) <= GoInt.int_max /\
  GoInt.is_uint64 (count db).

Definition panics {S A} (r : Res S A) : bool :=
  match r with
  | Panic => true
  | Ret _ _ => false
  end.

(** A work function together with a record of its invocations: the
    index of each and what it returned, in the order they ran. *)
Definition recorded {S} (work : Z -> S -> option err * S) (i : Z)
  : M (S * list (Z * option err)) (option err) :=
  fun st =>
    let (e, s') := work i (fst st) in
    Ret e (s', snd st ++ [(i, e)]).

(** Operations one after the other. *)
Fixpoint run_ops (os : list Op) : M World (list Out) :=
  match os with
  | [] => ret []
  | o :: os' => x <- run_op o ;; xs <- run_ops os' ;; ret (x :: xs)
  end.

(** The write path: one call, on the master. *)
Definition master_call (o : Op) : option Call :=
  match o with
  | OpDriver => Some CallDriver
  | OpBegin => Some CallBegin
  | OpExec q args => Some (CallExec q args)
  | OpPreparex q => Some (CallPreparex q)
  | _ => None
  end.

(** The read path: one call, on a slave. *)
Definition slave_call (o : Op) : option Call :=
  match o with
  | OpPreparexSlave q => Some (CallPreparex q)
  | OpSelect dest q args => Some (CallSelect dest q args)
  | OpQueryxSlave q args => Some (CallQueryx q args)
  | _ => None
  end.

(** *** What the router asks of the physical layer

    The calls an operation makes and the state it leaves, written without
    the answers of the physical layer. *)

(** The answers to the calls [evs], made one after the other from the
    history [tr]. *)
Fixpoint answers (tr : list Event) (evs : list Event) : list reply :=
  match evs with
  | [] => []
  | EvCall h c :: rest => phys tr h c :: answers (tr ++ [EvCall h c]) rest
  | e :: rest => answers (tr ++ [e]) rest
  end.

(** The call [c] on the handles at the slots [idxs], in that order. *)
Definition calls_at (c : Call) (hs : list handle) (idxs : list nat)
  : list Event :=
  omap (fun i => (fun h => EvCall h c) <$> hs !! i) idxs.

(** The physical databases behind the slots that are not nil. *)
Definition handles (db : DB) : list handle := omap id (pdbs db).

(** The slot a read goes to. *)
Definition selected_slot (db : DB) : nat :=
  if 1 <? len (pdbs db)
  then Z.to_nat (1 + GoInt.uint64_add (count db) 1 mod (len (pdbs db) - 1))
  else O.

Definition after_op (o : Op) (db : DB) : DB :=
  if selects o && (1 <? len (pdbs db)) then bump db else db.

Definition emitted (o : Op) (db : DB) : list Event :=
  let hs := handles db in
  match o with
  | OpPing sc => calls_at CallPing hs (order sc (length hs))
  | OpSetMaxIdleConns n =>
      calls_at (CallSetMaxIdleConns n) hs (seq 0 (length hs))
  | OpSetMaxOpenConns n =>
      calls_at (CallSetMaxOpenConns n) hs (seq 0 (length hs))
  | OpSetConnMaxLifetime d =>
      calls_at (CallSetConnMaxLifetime d) hs (seq 0 (length hs))
  | OpSlave | OpMaster => []
  | _ =>
      match master_call o, slave_call o with
      | Some c, _ => calls_at c hs [O]
      | None, Some c => calls_at c hs [selected_slot db]
      | None, None => []
      end
  end.

(** The state and the calls after the operations [os], one after the
    other. *)
Fixpoint route (os : list Op) (db : DB) : DB * list Event :=
  match os with
  | [] => (db, [])
  | o :: os' =>
      let (db', evs) := route os' (after_op o db) in
      (db', emitted o db ++ evs)
  end.

(** How many of the operations read from a slave. *)
Definition count_reads (os : list Op) : nat :=
  length (List.filter selects os).

(** ** Facts about the integer conversions *)

Lemma to_uint64_range x : GoInt.is_uint64 (GoInt.to_uint64 x).
Proof.
  unfold GoInt.is_uint64, GoInt.to_uint64, GoInt.uint64_mod.
  apply Z.mod_pos_bound. lia.
Qed.

Lemma to_uint64_id x : GoInt.is_uint64 x -> GoInt.to_uint64 x = x.
Proof.
  unfold GoInt.is_uint64, GoInt.to_uint64. intros H.
  apply Z.mod_small. exact H.
Qed.

Lemma to_int_id x : GoInt.is_int x -> GoInt.to_int x = x.
Proof.
  unfold GoInt.is_int, GoInt.to_int, GoInt.int_min, GoInt.int_max,
    GoInt.uint64_mod.
  intros H. rewrite Z.mod_small; lia.
Qed.

(** The divisor [uint64(n-1)] of [slave] is [n-1] itself. *)
Lemma slave_divisor n :
  1 < n <= GoInt.int_max ->
  GoInt.to_uint64 (GoInt.int_sub n 1) = n - 1.
Proof.
  intros Hn. unfold GoInt.int_sub.
  rewrite to_int_id.
  - apply to_uint64_id. unfold GoInt.is_uint64, GoInt.uint64_mod.
    unfold GoInt.int_max in Hn. lia.
  - unfold GoInt.is_int, GoInt.int_min. unfold GoInt.int_max in Hn |- *. lia.
Qed.

(** [1 + r] stays below both wrap-arounds when [r] is a remainder. *)
Lemma slave_result n r :
  1 < n <= GoInt.int_max -> 0 <= r < n - 1 ->
  GoInt.to_int (GoInt.uint64_add 1 r) = 1 + r.
Proof.
  intros Hn Hr. unfold GoInt.uint64_add. unfold GoInt.int_max in Hn.
  rewrite to_uint64_id.
  - apply to_int_id.
    unfold GoInt.is_int, GoInt.int_min, GoInt.int_max. lia.
  - unfold GoInt.is_uint64, GoInt.uint64_mod. lia.
Qed.

(** ** The selection function *)

Lemma slave_small n w : n <= 1 -> slave n w = Ret 0 w.
Proof.
  intros Hn. unfold slave.
  destruct (Z.leb_spec n 1) as [_|Hlt]; [reflexivity | lia].
Qed.

Lemma slave_large n w :
  1 < n <= GoInt.int_max ->
  slave n w =
    Ret (1 + GoInt.uint64_add (count (w_db w)) 1 mod (n - 1))
        (mkWorld (bump (w_db w)) (w_trace w)).
Proof.
  intros Hn. unfold slave.
  destruct (Z.leb_spec n 1) as [Hle|_]; [lia|].
  unfold bind, atomic_AddUint64_count, uint64_rem.
  rewrite (slave_divisor n Hn).
  destruct (Z.eqb_spec (n - 1) 0) as [E|_]; [lia|].
  unfold ret, bump. f_equal.
  apply (slave_result n); [exact Hn|]. apply Z.mod_pos_bound. lia.
Qed.

Lemma bump_count db :
  count (bump db) = (count db + 1) mod 2 ^ 64.
Proof. reflexivity. Qed.

Lemma bump_pdbs db : pdbs (bump db) = pdbs db.
Proof. reflexivity. Qed.

(** C1: for every [n >= 1] that an [int] can hold, [slave n] returns an
    index between [0] and [n-1]; for every [n <= 1] it returns [0] and
    touches nothing. *)
Theorem slave_index_in_range (n : Z) (w : World) :
  n <= GoInt.int_max ->
  (n <= 1 -> slave n w = Ret 0 w) /\
  (1 <= n -> exists i w', slave n w = Ret i w' /\ 0 <= i <= n - 1).
Proof.
  intros Hmax. split.
  - apply slave_small.
  - intros H1. destruct (Z.eq_dec n 1) as [->|Hne].
    + exists 0, w. split; [apply slave_small; lia | lia].
    + assert (Hn : 1 < n <= GoInt.int_max) by lia.
      eexists _, _. split; [apply (slave_large n w Hn)|].
      pose proof (Z.mod_pos_bound
                    (GoInt.uint64_add (count (w_db w)) 1) (n - 1)).
      lia.
Qed.

(** *** Calls in a row *)

Lemma iter_bump_pdbs k db : pdbs (Nat.iter k bump db) = pdbs db.
Proof.
  induction k as [|k IH]; [reflexivity|].
  rewrite Nat.iter_succ, bump_pdbs. exact IH.
Qed.

Lemma iter_bump_count k db :
  GoInt.is_uint64 (count db) ->
  count (Nat.iter k bump db) = (count db + Z.of_nat k) mod 2 ^ 64.
Proof.
  intros Hc. induction k as [|k IH].
  - change (Nat.iter 0 bump db) with db.
    rewrite Z.add_0_r. symmetry. apply Z.mod_small. exact Hc.
  - rewrite Nat.iter_succ, bump_count, IH.
    rewrite Zplus_mod_idemp_l. f_equal. lia.
Qed.

Lemma slave_calls_run n :
  1 < n <= GoInt.int_max ->
  forall k w,
    slave_calls k n w =
      Ret (map (fun j => 1 + count (Nat.iter j bump (w_db w)) mod (n - 1))
               (seq 1 k))
          (mkWorld (Nat.iter k bump (w_db w)) (w_trace w)).
Proof.
  intros Hn. induction k as [|k IH]; intros w.
  - destruct w as [db tr]. reflexivity.
  - cbn [slave_calls]. unfold bind at 1. rewrite (slave_large n w Hn).
    unfold bind. rewrite IH. unfold ret. cbn [w_db w_trace].
    rewrite <- Nat.iter_succ_r. f_equal.
    cbn [seq map]. f_equal.
    rewrite <- (seq_shift k 1), map_map.
    apply map_ext. intros j. rewrite Nat.iter_succ_r. reflexivity.
Qed.

(** C2, as the code has it: for [n > 1] a call adds one to the counter
    (modulo [2^64]) and returns [1 + counter mod (n-1)] for the new
    counter; from counter [0], as long as fewer than [2^64] calls are
    made, call number [j] returns [1 + j mod (n-1)], so the calls walk
    through [1..n-1] in rotation. *)
Theorem slave_round_robin (n : Z) (w : World) :
  1 < n <= GoInt.int_max ->
  slave n w =
    Ret (1 + ((count (w_db w) + 1) mod 2 ^ 64) mod (n - 1))
        (mkWorld (mkDB (pdbs (w_db w)) ((count (w_db w) + 1) mod 2 ^ 64))
                 (w_trace w)) /\
  (forall k : nat,
      Z.of_nat k < 2 ^ 64 -> count (w_db w) = 0 ->
      exists w',
        slave_calls k n w =
          Ret (map (fun j => 1 + Z.of_nat j mod (n - 1)) (seq 1 k)) w' /\
        count (w_db w') = Z.of_nat k /\
        pdbs (w_db w') = pdbs (w_db w)).
Proof.
  intros Hn. split; [apply (slave_large n w Hn)|].
  intros k Hk H0. rewrite (slave_calls_run n Hn).
  eexists. split; [|split].
  - f_equal. apply map_ext_in. intros j Hj. apply in_seq in Hj.
    rewrite iter_bump_count by (rewrite H0; unfold GoInt.is_uint64,
                                  GoInt.uint64_mod; lia).
    rewrite H0, Z.add_0_l.
    rewrite (Z.mod_small (Z.of_nat j) (2 ^ 64)) by lia. reflexivity.
  - cbn [w_db].
    rewrite iter_bump_count by (rewrite H0; unfold GoInt.is_uint64,
                                  GoInt.uint64_mod; lia).
    rewrite H0, Z.add_0_l. apply Z.mod_small. lia.
  - cbn [w_db]. apply iter_bump_pdbs.
Qed.

(** ** Routed operations *)

Lemma index_lookup {S A} (l : list A) (i : nat) (x : A) (s : S) :
  l !! i = Some x -> index l (Z.of_nat i) s = Ret x s.
Proof.
  intros Hx. unfold index.
  destruct (Z.ltb_spec (Z.of_nat i) 0) as [Hneg|_]; [lia|].
  rewrite Nat2Z.id, Hx. reflexivity.
Qed.

Lemma method_call h c w :
  method (Some h) c w =
    Ret (phys (w_trace w) h c)
        (mkWorld (w_db w) (w_trace w ++ [EvCall h c])).
Proof. reflexivity. Qed.

Lemma live_master db :
  live db -> exists h, pdbs db !! 0%nat = Some (Some h).
Proof.
  intros (Hne & Hall & _). destruct (pdbs db) as [|p ps]; [congruence|].
  apply Forall_cons in Hall as [[h ->] _]. exists h. reflexivity.
Qed.

Lemma live_lookup db (i : nat) :
  live db -> (i < length (pdbs db))%nat ->
  exists h, pdbs db !! i = Some (Some h).
Proof.
  intros (_ & Hall & _) Hi.
  destruct (lookup_lt_is_Some_2 _ _ Hi) as [p Hp].
  destruct (proj1 (Forall_lookup _ _) Hall i p Hp) as [h ->].
  exists h. exact Hp.
Qed.

Lemma Master_at h w :
  pdbs (w_db w) !! 0%nat = Some (Some h) -> Master w = Ret (Some h) w.
Proof.
  intros H0. unfold Master, bind, load_pdbs.
  apply (index_lookup _ 0%nat). exact H0.
Qed.

Lemma on_master h c w :
  pdbs (w_db w) !! 0%nat = Some (Some h) ->
  (ps <- load_pdbs ;; p <- index ps 0 ;; method p c) w =
    Ret (phys (w_trace w) h c)
        (mkWorld (w_db w) (w_trace w ++ [EvCall h c])).
Proof.
  intros H0. unfold bind at 1. unfold load_pdbs. unfold bind.
  rewrite (index_lookup _ 0%nat _ _ H0). apply method_call.
Qed.

Lemma Preparex_at h query w :
  pdbs (w_db w) !! 0%nat = Some (Some h) ->
  Preparex query w =
    Ret (phys (w_trace w) h (CallPreparex query))
        (mkWorld (w_db w) (w_trace w ++ [EvCall h (CallPreparex query)])).
Proof.
  intros H0. unfold Preparex, bind. rewrite (Master_at h w H0).
  apply method_call.
Qed.

(** C3: on a router whose slot 0 holds the master [h], [Exec], [Begin],
    [Preparex] and [Driver] each make exactly one physical call, on [h],
    whatever the query and the arguments; they hand back its answer and
    leave the [DB] object as it was.  [Master] returns slot 0. *)
Theorem writes_go_to_master (w : World) (h : handle) :
  pdbs (w_db w) !! 0%nat = Some (Some h) ->
  let routed c :=
    Ret (phys (w_trace w) h c)
        (mkWorld (w_db w) (w_trace w ++ [EvCall h c])) in
  Master w = Ret (Some h) w /\
  (forall query args, Exec query args w = routed (CallExec query args)) /\
  Begin w = routed CallBegin /\
  (forall query, Preparex query w = routed (CallPreparex query)) /\
  Driver w = routed CallDriver.
Proof.
  intros H0 routed. subst routed. cbv beta.
  split; [apply (Master_at h w H0)|].
  split; [intros q args; apply (on_master h _ w H0)|].
  split; [apply (on_master h _ w H0)|].
  split; [|apply (on_master h _ w H0)].
  intros q. apply (Preparex_at h q w H0).
Qed.

Lemma slave_live w :
  live (w_db w) ->
  exists (i : nat) w1 h,
    slave (len (pdbs (w_db w))) w = Ret (Z.of_nat i) w1 /\
    pdbs (w_db w) !! i = Some (Some h) /\
    w_trace w1 = w_trace w /\
    pdbs (w_db w1) = pdbs (w_db w) /\
    count (w_db w1) =
      (if 1 <? len (pdbs (w_db w))
       then (count (w_db w) + 1) mod 2 ^ 64 else count (w_db w)) /\
    (len (pdbs (w_db w)) = 1 -> i = 0%nat /\ w1 = w).
Proof.
  intros Hlive. pose proof Hlive as (Hne & Hall & Hmax & Hc).
  destruct (Z.ltb_spec 1 (len (pdbs (w_db w)))) as [Hn|Hn].
  - set (r := GoInt.uint64_add (count (w_db w)) 1 mod
                (len (pdbs (w_db w)) - 1)).
    assert (Hr : 0 <= r < len (pdbs (w_db w)) - 1)
      by (apply Z.mod_pos_bound; lia).
    destruct (live_lookup (w_db w) (Z.to_nat (1 + r)) Hlive) as [h Hh].
    { unfold len in Hr. lia. }
    exists (Z.to_nat (1 + r)), (mkWorld (bump (w_db w)) (w_trace w)), h.
    rewrite Z2Nat.id by lia.
    split; [apply slave_large; lia|].
    split; [exact Hh|].
    split; [reflexivity|]. split; [reflexivity|].
    split; [reflexivity|]. lia.
  - destruct (live_master (w_db w) Hlive) as [h Hh].
    exists 0%nat, w, h.
    split; [apply slave_small; exact Hn|].
    split; [exact Hh|]. repeat split; reflexivity.
Qed.

Lemma Slave_at (i : nat) h w w1 :
  slave (len (pdbs (w_db w))) w = Ret (Z.of_nat i) w1 ->
  pdbs (w_db w) !! i = Some (Some h) ->
  Slave w = Ret (Some h) w1.
Proof.
  intros Hs Hh. unfold Slave. unfold bind at 1. unfold load_pdbs.
  unfold bind. rewrite Hs. apply index_lookup. exact Hh.
Qed.

(** C4: on a live router every read ([Select], [QueryxSlave],
    [PreparexSlave], and [Slave] itself) runs [slave] once on the number
    of physical databases and makes its one physical call on the slot
    that call chose, in the state that call left; with a single physical
    database the slot is 0 and the state is untouched. *)
Theorem reads_go_to_selected_slave (w : World) :
  live (w_db w) ->
  exists (i : nat) w1 h,
    slave (len (pdbs (w_db w))) w = Ret (Z.of_nat i) w1 /\
    pdbs (w_db w) !! i = Some (Some h) /\
    w_trace w1 = w_trace w /\
    (let routed c :=
       Ret (phys (w_trace w) h c)
           (mkWorld (w_db w1) (w_trace w ++ [EvCall h c])) in
     Slave w = Ret (Some h) w1 /\
     (forall dest query args,
         Select dest query args w = routed (CallSelect dest query args)) /\
     (forall query args,
         QueryxSlave query args w = routed (CallQueryx query args)) /\
     (forall query,
         PreparexSlave query w = routed (CallPreparex query))) /\
    (len (pdbs (w_db w)) = 1 -> i = 0%nat /\ w1 = w).
Proof.
  intros Hlive.
  destruct (slave_live w Hlive) as (i & w1 & h & Hs & Hh & Htr & _ & _ & H1).
  exists i, w1, h. pose proof (Slave_at i h w w1 Hs Hh) as HS.
  split; [exact Hs|]. split; [exact Hh|]. split; [exact Htr|].
  split; [|exact H1]. cbv zeta. rewrite <- Htr.
  split; [exact HS|].
  split; [|split]; intros;
    unfold Select, QueryxSlave, PreparexSlave, bind; rewrite HS;
    apply method_call.
Qed.

(** ** The schedule of scatter *)

Lemma arrange_perm fuel :
  forall ps pending,
    length pending = fuel -> arrange fuel ps pending ≡ₚ pending.
Proof.
  induction fuel as [|fuel IH]; intros ps pending Hlen.
  - destruct pending; [reflexivity | discriminate].
  - cbn [arrange].
    assert (Hj : (Nat.modulo (hd O ps) (length pending)
                  < length pending)%nat)
      by (apply Nat.mod_upper_bound; lia).
    destruct (lookup_lt_is_Some_2 _ _ Hj) as [i Hi]. rewrite Hi.
    etransitivity; [|symmetry; apply (delete_Permutation pending _ i Hi)].
    constructor. apply IH.
    rewrite length_delete by eauto. lia.
Qed.

Lemma order_perm sc n : order sc n ≡ₚ seq 0 n.
Proof. apply arrange_perm. apply length_seq. Qed.

Lemma order_bound sc n : Forall (fun i => (i < n)%nat) (order sc n).
Proof.
  apply Forall_forall. intros i Hi.
  rewrite (order_perm sc n) in Hi. apply elem_of_seq in Hi. lia.
Qed.

(** ** scatter *)

Lemma pick_failure_nil c : pick_failure c [] = None.
Proof. unfold pick_failure. apply lookup_nil. Qed.

Lemma pick_failure_elem c fails x :
  pick_failure c fails = Some x -> x ∈ fails.
Proof. unfold pick_failure. apply list_elem_of_lookup_2. Qed.

Lemma pick_failure_some c fails :
  fails <> [] -> exists x, pick_failure c fails = Some x.
Proof.
  intros Hne. unfold pick_failure. apply lookup_lt_is_Some_2.
  apply Nat.mod_upper_bound. destruct fails; [congruence | cbn; lia].
Qed.

Lemma gather_recorded {S} (work : Z -> S -> option err * S) idxs :
  forall s l,
  exists s' l',
    gather (recorded work) idxs (s, l) = Ret (omap snd l') (s', l ++ l') /\
    l'.*1 = Z.of_nat <$> idxs.
Proof.
  induction idxs as [|i idxs IH]; intros s l.
  - exists s, []. rewrite app_nil_r. split; reflexivity.
  - cbn [gather]. unfold bind at 1. unfold recorded at 1. cbn [fst snd].
    destruct (work (Z.of_nat i) s) as [e s1] eqn:Hw.
    destruct (IH s1 (l ++ [(Z.of_nat i, e)])) as (s' & l' & Hrun & Hidx).
    exists s', ((Z.of_nat i, e) :: l').
    unfold bind. rewrite Hrun. unfold ret. split.
    + rewrite <- app_assoc. cbn [app omap list_omap snd].
      destruct e; reflexivity.
    + cbn. rewrite Hidx. reflexivity.
Qed.

(** C6: [scatter] on [count >= 0] and any work function returns, having
    invoked the work function exactly once at each index below [count];
    with [count = 0] nothing is invoked and no error is returned; if no
    invocation failed no error is returned; if some failed, the error
    returned is the one an invocation returned. *)
Theorem scatter_contract {S} (sc : Sched) (n : Z)
    (work : Z -> S -> option err * S) (s : S) :
  0 <= n ->
  exists e s' l,
    scatter sc n (recorded work) (s, []) = Ret e (s', l) /\
    l.*1 ≡ₚ Z.of_nat <$> seq 0 (Z.to_nat n) /\
    (n = 0 -> e = None /\ l = [] /\ s' = s) /\
    (Forall (fun r => r.2 = None) l -> e = None) /\
    (Exists (fun r => r.2 <> None) l ->
     exists i x, e = Some x /\ (i, Some x) ∈ l).
Proof.
  intros Hn. unfold scatter, bind.
  destruct (gather_recorded work (order sc (Z.to_nat n)) s [])
    as (s' & l & Hrun & Hidx).
  rewrite Hrun. cbn [app]. unfold ret.
  exists (pick_failure (choice sc) (omap snd l)), s', l.
  split; [reflexivity|]. split; [|split; [|split]].
  - rewrite Hidx. apply fmap_Permutation, order_perm.
  - intros ->. change (Z.to_nat 0) with 0%nat in Hrun.
    cbn in Hrun. unfold ret in Hrun.
    injection Hrun as Hfails Hs Hl.
    rewrite <- Hfails, <- Hl, Hs, pick_failure_nil. auto.
  - intros Hall.
    destruct (pick_failure (choice sc) (omap snd l)) as [x|] eqn:Hp;
      [|reflexivity].
    apply pick_failure_elem, list_elem_of_omap in Hp as ([i e] & Hin & He).
    cbn in He. subst e.
    apply (proj1 (Forall_forall _ _) Hall) in Hin. discriminate.
  - intros Hex. apply Exists_exists in Hex as ([i e] & Hin & He).
    cbn in He. destruct e as [y|]; [|congruence].
    destruct (pick_failure_some (choice sc) (omap snd l)) as [x Hx].
    { intros Hnil.
      assert (Hy : y ∈ omap snd l)
        by (apply list_elem_of_omap; exists (i, Some y); auto).
      rewrite Hnil in Hy. inversion Hy. }
    rewrite Hx.
    pose proof (pick_failure_elem _ _ _ Hx) as Hel.
    apply list_elem_of_omap in Hel as ([j e] & Hj & Hje).
    cbn in Hje. subst e. exists j, x. auto.
Qed.

(** ** Open *)

Lemma Split_cons s sep : exists seg rest, Split s sep = seg :: rest.
Proof.
  induction s as [|c s IH]; cbn [Split]; [eauto|].
  destruct (Ascii.eqb c sep); [eauto|].
  destruct IH as (seg & rest & ->). eauto.
Qed.

Lemma Split_concat s sep :
  String.concat (String sep EmptyString) (Split s sep) = s.
Proof.
  induction s as [|c s IH]; [reflexivity|].
  cbn [Split]. destruct (Ascii.eqb_spec c sep) as [->|Hne].
  - destruct (Split_cons s sep) as (seg & rest & Hs).
    rewrite Hs in IH |- *. cbn [String.concat]. cbn [String.concat] in IH.
    rewrite IH. reflexivity.
  - destruct (Split_cons s sep) as (seg & rest & Hs).
    rewrite Hs in IH |- *.
    destruct rest as [|seg' rest].
    + cbn [String.concat] in IH |- *. rewrite IH. reflexivity.
    + change (String c (String.concat (String sep EmptyString)
                          (seg :: seg' :: rest)) = String c s).
      rewrite IH. reflexivity.
Qed.

Lemma Split_no_sep s sep :
  Forall (fun seg => occurrences sep seg = O) (Split s sep).
Proof.
  induction s as [|c s IH]; [repeat constructor|].
  cbn [Split]. destruct (Ascii.eqb c sep) eqn:Hc.
  - constructor; [reflexivity | exact IH].
  - destruct (Split s sep) as [|seg rest].
    + repeat constructor. cbn [occurrences]. rewrite Hc. reflexivity.
    + apply Forall_cons in IH as [Hseg Hrest].
      constructor; [|exact Hrest]. cbn [occurrences]. rewrite Hc. exact Hseg.
Qed.

Lemma Split_length s sep :
  length (Split s sep) = S (occurrences sep s).
Proof.
  induction s as [|c s IH]; [reflexivity|].
  cbn [Split occurrences]. destruct (Ascii.eqb c sep).
  - cbn [length]. rewrite IH. reflexivity.
  - destruct (Split_cons s sep) as (seg & rest & Hs).
    rewrite Hs in IH |- *. exact IH.
Qed.

Lemma omap_seq_lookup {A B} (g : option A -> option B) (l : list A) :
  forall pre,
    omap (fun i => g ((pre ++ l) !! i)) (seq (length pre) (length l)) =
    omap (fun x => g (Some x)) l.
Proof.
  induction l as [|x l IH]; intros pre; [reflexivity|].
  cbn [length seq omap list_omap].
  rewrite (list_lookup_middle pre l x (length pre) eq_refl).
  specialize (IH (pre ++ [x])).
  rewrite <- app_assoc, length_app, Nat.add_1_r in IH. cbn [app] in IH.
  rewrite IH. reflexivity.
Qed.

Lemma open_one_run d conns (i : nat) c db tr :
  conns !! i = Some c -> (i < length (pdbs db))%nat ->
  open_one d conns (Z.of_nat i) (mkWorld db tr) =
    Ret (open_error d c)
        (mkWorld (mkDB (<[i := opened d c]> (pdbs db)) (count db))
                 (tr ++ [EvOpen d c])).
Proof.
  intros Hc Hi. unfold open_one. unfold bind at 1.
  rewrite (index_lookup _ _ _ _ Hc). unfold bind at 1. unfold log.
  cbn [w_db w_trace]. unfold opened, open_error.
  destruct (sqlx_Open d c) as [h|e]; unfold bind, store_pdb;
    cbn [w_db w_trace pdbs count];
    destruct (Z.ltb_spec (Z.of_nat i) 0) as [Hneg|_]; try lia;
    destruct (Z.leb_spec (len (pdbs db)) (Z.of_nat i)) as [Hge|_];
    try (unfold len in Hge; lia);
    cbn [orb]; rewrite Nat2Z.id; reflexivity.
Qed.

Lemma gather_open d conns idxs :
  forall db tr,
    length (pdbs db) = length conns ->
    Forall (fun i => (i < length conns)%nat) idxs ->
    exists ps',
      gather (open_one d conns) idxs (mkWorld db tr) =
        Ret (omap (fun i => conns !! i ≫= open_error d) idxs)
            (mkWorld (mkDB ps' (count db))
                     (tr ++ omap (fun i => EvOpen d <$> conns !! i) idxs)) /\
      length ps' = length conns /\
      forall j, ps' !! j =
                if decide (j ∈ idxs) then Some (conns !! j ≫= opened d)
                else pdbs db !! j.
Proof.
  induction idxs as [|i idxs IH]; intros db tr Hlen Hall.
  - exists (pdbs db). destruct db as [ps c]. cbn.
    rewrite app_nil_r. split; [reflexivity|]. split; [exact Hlen|].
    intros j. destruct (decide (j ∈ [])) as [Hin|_]; [inversion Hin|].
    reflexivity.
  - apply Forall_cons in Hall as [Hi Hall].
    destruct (lookup_lt_is_Some_2 _ _ Hi) as [c Hc].
    cbn [gather]. unfold bind at 1.
    rewrite (open_one_run d conns i c db tr Hc) by lia.
    set (db1 := mkDB (<[i := opened d c]> (pdbs db)) (count db)).
    destruct (IH db1 (tr ++ [EvOpen d c])) as (ps' & Hrun & Hlen' & Hps');
      [subst db1; cbn [pdbs]; rewrite length_insert; exact Hlen
      |exact Hall|].
    exists ps'. unfold bind. rewrite Hrun. unfold ret.
    split; [|split; [exact Hlen'|]].
    + cbn [omap list_omap]. rewrite Hc. cbn [mbind option_bind fmap option_fmap option_map].
      rewrite <- app_assoc. cbn [app].
      destruct (open_error d c); reflexivity.
    + intros j. rewrite Hps'. subst db1. cbn [pdbs].
      destruct (decide (j ∈ idxs)) as [Hin|Hnin].
      * rewrite decide_True by (right; exact Hin). reflexivity.
      * destruct (decide (j = i)) as [->|Hne].
        -- rewrite decide_True by left.
           rewrite list_lookup_insert_eq by lia. rewrite Hc. reflexivity.
        -- rewrite decide_False
             by (intros Hin; apply elem_of_cons in Hin as [?|?]; tauto).
           apply list_lookup_insert_ne. congruence.
Qed.

Lemma omap_Some_fmap {A B} (f : A -> B) (l : list A) :
  omap (fun x => Some (f x)) l = f <$> l.
Proof.
  induction l as [|x l IH]; [reflexivity|].
  cbn [omap list_omap]. rewrite IH. reflexivity.
Qed.

Lemma open_failures d conns sc :
  omap (fun i => conns !! i ≫= open_error d) (order sc (length conns))
  ≡ₚ omap (open_error d) conns.
Proof.
  rewrite (order_perm sc (length conns)).
  rewrite (omap_seq_lookup (fun o => o ≫= open_error d) conns []).
  reflexivity.
Qed.

Lemma open_events d conns sc :
  omap (fun i => EvOpen d <$> conns !! i) (order sc (length conns))
  ≡ₚ EvOpen d <$> conns.
Proof.
  rewrite (order_perm sc (length conns)).
  rewrite (omap_seq_lookup (fun o => EvOpen d <$> o) conns []).
  cbn [fmap option_fmap option_map]. rewrite omap_Some_fmap. reflexivity.
Qed.

Lemma open_slots d conns sc ps' :
  (forall j, ps' !! j =
             if decide (j ∈ order sc (length conns))
             then Some (conns !! j ≫= opened d)
             else replicate (length conns) None !! j) ->
  ps' = opened d <$> conns.
Proof.
  intros Hps. apply list_eq. intros j. rewrite Hps, list_lookup_fmap.
  destruct (decide (j ∈ order sc (length conns))) as [Hin|Hnin].
  - rewrite (order_perm sc (length conns)) in Hin.
    apply elem_of_seq in Hin.
    destruct (lookup_lt_is_Some_2 conns j) as [c Hc]; [lia|].
    rewrite Hc. reflexivity.
  - assert (Hge : (length conns <= j)%nat).
    { destruct (Nat.le_gt_cases (length conns) j) as [?|Hlt]; [assumption|].
      exfalso. apply Hnin. rewrite (order_perm sc (length conns)).
      apply elem_of_seq. lia. }
    rewrite (lookup_ge_None_2 conns j Hge).
    apply lookup_replicate_None. exact Hge.
Qed.

Lemma all_opened d conns :
  omap (open_error d) conns = [] -> Forall is_Some (opened d <$> conns).
Proof.
  intros Hnil. apply Forall_fmap, Forall_forall. intros c Hc.
  unfold compose, opened.
  destruct (sqlx_Open d c) as [h|e] eqn:Ho; [eexists; reflexivity|].
  assert (He : e ∈ omap (open_error d) conns).
  { apply list_elem_of_omap. exists c. split; [exact Hc|].
    unfold open_error. rewrite Ho. reflexivity. }
  rewrite Hnil in He. inversion He.
Qed.

(** [Open] once [scatter] has run, for any schedule. *)
Lemma Open_unfold (sc : Sched) (driverName dataSourceNames : string)
    (tr : list Event) :
  let conns := Split dataSourceNames semicolon in
  let idxs := order sc (length conns) in
  Open sc driverName dataSourceNames tr =
    Ret (match pick_failure (choice sc)
                 (omap (fun i => conns !! i ≫= open_error driverName) idxs)
         with
         | Some e => (None, Some e)
         | None => (Some (mkDB (opened driverName <$> conns) 0), None)
         end)
        (tr ++ omap (fun i => EvOpen driverName <$> conns !! i) idxs).
Proof.
  intros conns idxs. unfold Open. fold conns. cbn zeta. cbn [pdbs].
  unfold scatter, bind, len. rewrite length_replicate, Nat2Z.id.
  fold idxs.
  destruct (gather_open driverName conns idxs
              (mkDB (replicate (length conns) None) 0) tr)
    as (ps' & Hrun & _ & Hps');
    [cbn [pdbs]; apply length_replicate | apply order_bound |].
  rewrite Hrun. unfold ret. cbn [pdbs count] in Hps' |- *.
  apply open_slots in Hps'. subst ps'.
  destruct (pick_failure (choice sc) _); reflexivity.
Qed.

(** C5: [Open] cuts the data source names at every [;] and nowhere else
    (the segments hold no [;], joined with [;] they give the names back,
    and there is one more of them than there are [;]) and asks sqlx to
    open each segment exactly once.  If every segment opens, it returns
    a [DB] whose [pdbs] holds, slot by slot and in the order of the
    segments, what each was opened to (slot 0 being the first segment),
    with the counter at 0 and no error.  If some segment fails, it
    returns a nil [DB] and the error of one of the failed segments. *)
Theorem Open_result (sc : Sched) (driverName dataSourceNames : string)
    (tr : list Event) :
  let conns := Split dataSourceNames semicolon in
  String.concat ";" conns = dataSourceNames /\
  Forall (fun c => occurrences semicolon c = O) conns /\
  length conns = S (occurrences semicolon dataSourceNames) /\
  exists res evs,
    Open sc driverName dataSourceNames tr = Ret res (tr ++ evs) /\
    evs ≡ₚ EvOpen driverName <$> conns /\
    match omap (open_error driverName) conns with
    | [] =>
        res = (Some (mkDB (opened driverName <$> conns) 0), None) /\
        Forall is_Some (opened driverName <$> conns)
    | _ :: _ =>
        exists e,
          e ∈ omap (open_error driverName) conns /\
          res = (None, Some e)
    end.
Proof.
  intros conns.
  split; [apply (Split_concat dataSourceNames semicolon)|].
  split; [apply Split_no_sep|]. split; [apply Split_length|].
  rewrite Open_unfold. fold conns.
  pose proof (open_failures driverName conns sc) as Hfails.
  pose proof (open_events driverName conns sc) as Hevs.
  set (fails := omap (fun i => conns !! i ≫= open_error driverName)
                     (order sc (length conns))) in Hfails |- *.
  eexists _, _. split; [reflexivity|]. split; [exact Hevs|].
  destruct (omap (open_error driverName) conns) as [|e0 es] eqn:Herrs.
  - apply Permutation_nil_r in Hfails. rewrite Hfails, pick_failure_nil.
    split; [reflexivity|]. apply all_opened. exact Herrs.
  - destruct (pick_failure_some (choice sc) fails) as [x Hx].
    { intros Hnil. rewrite Hnil in Hfails.
      apply Permutation_nil_l in Hfails. discriminate. }
    rewrite Hx. exists x. split; [|reflexivity].
    rewrite <- Hfails. apply (pick_failure_elem _ _ _ Hx).
Qed.

(** ** What an operation leaves behind *)

Lemma call_one_frame c db tr (i : nat) :
  live db -> (i < length (pdbs db))%nat ->
  exists e tr', call_one c (Z.of_nat i) (mkWorld db tr) = Ret e (mkWorld db tr').
Proof.
  intros Hlive Hi. destruct (live_lookup db i Hlive Hi) as [h Hh].
  unfold call_one. unfold bind at 1. unfold load_pdbs. cbn [w_db].
  unfold bind at 1. rewrite (index_lookup _ _ _ _ Hh).
  unfold bind. rewrite method_call. unfold ret. cbn [w_db w_trace].
  eauto.
Qed.

Lemma gather_frame c db idxs :
  live db -> Forall (fun i => (i < length (pdbs db))%nat) idxs ->
  forall tr,
  exists es tr',
    gather (call_one c) idxs (mkWorld db tr) = Ret es (mkWorld db tr').
Proof.
  intros Hlive. induction idxs as [|i idxs IH]; intros Hall tr.
  - cbn. unfold ret. eauto.
  - apply Forall_cons in Hall as [Hi Hall].
    destruct (call_one_frame c db tr i Hlive Hi) as (e & tr1 & Hrun).
    destruct (IH Hall tr1) as (es & tr' & Hrest).
    cbn [gather]. unfold bind. rewrite Hrun, Hrest. unfold ret. eauto.
Qed.

Lemma scatter_frame c sc db tr :
  live db ->
  exists e tr',
    scatter sc (len (pdbs db)) (call_one c) (mkWorld db tr) =
      Ret e (mkWorld db tr').
Proof.
  intros Hlive. unfold scatter, bind, len. rewrite Nat2Z.id.
  destruct (gather_frame c db (order sc (length (pdbs db))) Hlive
              (order_bound sc _) tr) as (es & tr' & ->).
  unfold ret. eauto.
Qed.

Lemma for_each_frame c db idxs :
  live db -> Forall (fun i => (i < length (pdbs db))%nat) idxs ->
  forall tr,
  exists tr',
    for_each idxs
      (fun i => ps' <- load_pdbs ;;
                p <- index ps' (Z.of_nat i) ;;
                method p c ;;; ret tt) (mkWorld db tr) =
      Ret tt (mkWorld db tr').
Proof.
  intros Hlive. induction idxs as [|i idxs IH]; intros Hall tr.
  - cbn. unfold ret. eauto.
  - apply Forall_cons in Hall as [Hi Hall].
    destruct (live_lookup db i Hlive Hi) as [h Hh].
    cbn [for_each]. unfold bind at 1. unfold bind at 1.
    unfold load_pdbs at 1. cbn [w_db]. unfold bind at 1.
    rewrite (index_lookup _ _ _ _ Hh). unfold bind at 1.
    rewrite method_call. unfold ret at 1. cbn [w_db w_trace].
    apply IH. exact Hall.
Qed.

Lemma each_pdb_frame c w :
  live (w_db w) ->
  exists tr', each_pdb c w = Ret tt (mkWorld (w_db w) tr').
Proof.
  intros Hlive. destruct w as [db tr]. unfold each_pdb. unfold bind at 1.
  unfold load_pdbs. cbn [w_db] in Hlive |- *.
  apply (for_each_frame c db _ Hlive).
  apply Forall_forall. intros i Hi. apply elem_of_seq in Hi. lia.
Qed.

Lemma run_master_op o c h w :
  master_call o = Some c ->
  pdbs (w_db w) !! 0%nat = Some (Some h) ->
  run_op o w =
    Ret (OutReply (phys (w_trace w) h c))
        (mkWorld (w_db w) (w_trace w ++ [EvCall h c])).
Proof.
  intros Hc H0.
  destruct o; try discriminate; injection Hc as <-;
    cbn [run_op]; unfold bind at 1;
    unfold Driver, Begin, Exec;
    rewrite ?(on_master h _ w H0), ?(Preparex_at h _ w H0); reflexivity.
Qed.

Lemma slave_retrace n w i w1 tr :
  slave n w = Ret i w1 ->
  slave n (mkWorld (w_db w) tr) = Ret i (mkWorld (w_db w1) tr).
Proof.
  unfold slave. destruct (n <=? 1).
  - unfold ret. intros [= <- <-]. reflexivity.
  - unfold bind, atomic_AddUint64_count, uint64_rem. cbn [w_db w_trace].
    destruct (GoInt.to_uint64 (GoInt.int_sub n 1) =? 0); [discriminate|].
    unfold ret. intros [= <- <-]. reflexivity.
Qed.

Lemma run_slave_op o c (i : nat) h w w1 :
  slave_call o = Some c ->
  slave (len (pdbs (w_db w))) w = Ret (Z.of_nat i) w1 ->
  pdbs (w_db w) !! i = Some (Some h) ->
  run_op o w =
    Ret (OutReply (phys (w_trace w1) h c))
        (mkWorld (w_db w1) (w_trace w1 ++ [EvCall h c])).
Proof.
  intros Hc Hs Hh. pose proof (Slave_at i h w w1 Hs Hh) as HS.
  destruct o; try discriminate; injection Hc as <-;
    cbn [run_op]; unfold bind at 1;
    unfold PreparexSlave, Select, QueryxSlave; unfold bind at 1;
    rewrite HS, method_call; reflexivity.
Qed.

Lemma live_same_pdbs db db' :
  live db -> pdbs db' = pdbs db -> GoInt.is_uint64 (count db') -> live db'.
Proof.
  intros (Hne & Hall & Hmax & _) Hp Hc. unfold live. rewrite Hp. auto.
Qed.

Lemma slave_keeps_live w i w1 :
  live (w_db w) -> slave (len (pdbs (w_db w))) w = Ret i w1 ->
  live (w_db w1).
Proof.
  intros Hlive Hs.
  destruct (slave_live w Hlive) as (j & w2 & h & Hs2 & _ & _ & Hp & Hc & _).
  rewrite Hs in Hs2. injection Hs2 as -> ->.
  apply (live_same_pdbs _ _ Hlive Hp). rewrite Hc.
  destruct (1 <? len (pdbs (w_db w))); [|apply Hlive].
  apply to_uint64_range.
Qed.

(** Every operation returns, leaves [pdbs] alone, and moves the counter
    only by the one increment of a selection among several. *)
Lemma run_op_frame o w :
  live (w_db w) ->
  exists out w',
    run_op o w = Ret out w' /\
    pdbs (w_db w') = pdbs (w_db w) /\
    count (w_db w') =
      (if selects o && (1 <? len (pdbs (w_db w)))
       then (count (w_db w) + 1) mod 2 ^ 64 else count (w_db w)).
Proof.
  intros Hlive.
  destruct (live_master (w_db w) Hlive) as [h0 H0].
  destruct (slave_live w Hlive) as (i & w1 & h & Hs & Hh & Htr & Hp & Hc & _).
  pose proof (Slave_at i h w w1 Hs Hh) as HS.
  destruct (master_call o) as [c|] eqn:Hm.
  { rewrite (run_master_op o c h0 w Hm H0). eexists _, _.
    split; [reflexivity|]. cbn [w_db].
    destruct o; try discriminate; auto. }
  destruct (slave_call o) as [c|] eqn:Hr.
  { rewrite (run_slave_op o c i h w w1 Hr Hs Hh). eexists _, _.
    split; [reflexivity|]. cbn [w_db].
    destruct o; try discriminate; auto. }
  destruct o; try discriminate; cbn [run_op selects andb].
  - destruct w as [db tr]. unfold bind at 1. unfold Ping. unfold bind at 1.
    unfold load_pdbs. cbn [w_db] in Hlive |- *.
    destruct (scatter_frame CallPing sc db tr Hlive) as (e & tr' & ->).
    unfold ret. eexists _, _. split; [reflexivity|]. auto.
  - unfold SetMaxIdleConns, bind.
    destruct (each_pdb_frame (CallSetMaxIdleConns n) w Hlive) as [tr' ->].
    unfold ret. eexists _, _. split; [reflexivity|]. auto.
  - unfold SetMaxOpenConns, bind.
    destruct (each_pdb_frame (CallSetMaxOpenConns n) w Hlive) as [tr' ->].
    unfold ret. eexists _, _. split; [reflexivity|]. auto.
  - unfold SetConnMaxLifetime, bind.
    destruct (each_pdb_frame (CallSetConnMaxLifetime d) w Hlive) as [tr' ->].
    unfold ret. eexists _, _. split; [reflexivity|]. auto.
  - unfold bind. rewrite HS. unfold ret. eexists _, _.
    split; [reflexivity|]. auto.
  - unfold bind. rewrite (Master_at h0 w H0). unfold ret. eexists _, _.
    split; [reflexivity|]. auto.
Qed.

(** C7: a write-path operation ([Exec] among them) between two reads
    makes its one call on slot 0 and leaves the [DB] object, the counter
    included, as it found it: the two reads select the slots [i1] and
    [i2] that two calls of [slave] in a row select, with or without the
    write in between, and the counter ends the same. *)
Theorem exec_keeps_rotation (w : World) (r1 m r2 : Op) (c1 cm c2 : Call) :
  live (w_db w) ->
  slave_call r1 = Some c1 ->
  master_call m = Some cm ->
  slave_call r2 = Some c2 ->
  exists (i1 i2 : nat) h0 h1 h2 wa wb outs outs',
    pdbs (w_db w) !! 0%nat = Some (Some h0) /\
    pdbs (w_db w) !! i1 = Some (Some h1) /\
    pdbs (w_db w) !! i2 = Some (Some h2) /\
    slave (len (pdbs (w_db w))) w = Ret (Z.of_nat i1) wa /\
    slave (len (pdbs (w_db w))) wa = Ret (Z.of_nat i2) wb /\
    run_ops [r1; m; r2] w =
      Ret outs
          (mkWorld (w_db wb)
             (w_trace w ++ [EvCall h1 c1; EvCall h0 cm; EvCall h2 c2])) /\
    run_ops [r1; r2] w =
      Ret outs'
          (mkWorld (w_db wb) (w_trace w ++ [EvCall h1 c1; EvCall h2 c2])) /\
    (forall w0, live (w_db w0) ->
       exists out tr', run_op m w0 = Ret out (mkWorld (w_db w0) tr')).
Proof.
  intros Hlive Hr1 Hm Hr2.
  destruct (live_master (w_db w) Hlive) as [h0 H0].
  destruct (slave_live w Hlive)
    as (i1 & wa & h1 & Hs1 & Hh1 & Htr1 & Hp1 & _ & _).
  pose proof (slave_keeps_live w _ wa Hlive Hs1) as Hlivea.
  destruct (slave_live wa Hlivea)
    as (i2 & wb & h2 & Hs2 & Hh2 & Htr2 & Hp2 & _ & _).
  rewrite Hp1 in Hs2, Hh2.
  exists i1, i2, h0, h1, h2, wa, wb.
  pose proof (run_slave_op r1 c1 i1 h1 w wa Hr1 Hs1 Hh1) as E1.
  rewrite Htr1 in E1.
  assert (E2 : forall tr,
             run_op r2 (mkWorld (w_db wa) tr) =
               Ret (OutReply (phys tr h2 c2))
                   (mkWorld (w_db wb) (tr ++ [EvCall h2 c2]))).
  { intros tr.
    apply (run_slave_op r2 c2 i2 h2 (mkWorld (w_db wa) tr)
             (mkWorld (w_db wb) tr) Hr2).
    - cbn [w_db]. rewrite Hp1. apply (slave_retrace _ wa _ wb tr Hs2).
    - cbn [w_db]. rewrite Hp1. exact Hh2. }
  assert (Em : forall tr,
             run_op m (mkWorld (w_db wa) tr) =
               Ret (OutReply (phys tr h0 cm))
                   (mkWorld (w_db wa) (tr ++ [EvCall h0 cm]))).
  { intros tr.
    apply (run_master_op m cm h0 (mkWorld (w_db wa) tr) Hm).
    cbn [w_db]. rewrite Hp1. exact H0. }
  eexists _, _.
  split; [exact H0|]. split; [exact Hh1|]. split; [exact Hh2|].
  split; [exact Hs1|]. split; [exact Hs2|].
  split; [|split].
  - cbn [run_ops]. unfold bind. rewrite E1, Em, E2. unfold ret.
    rewrite <- !app_assoc. reflexivity.
  - cbn [run_ops]. unfold bind. rewrite E1, E2. unfold ret.
    rewrite <- !app_assoc. reflexivity.
  - intros w0 Hlive0.
    destruct (live_master (w_db w0) Hlive0) as [h Hh].
    rewrite (run_master_op m cm h w0 Hm Hh). eauto.
Qed.

(** C8: the counter is a [uint64]: for [n > 1] a call of [slave] takes
    it to its successor modulo [2^64], so from [2^64 - 1] to [0], and
    the index returned lies in [1..n-1] there as everywhere; no
    operation on a live router sets it to anything but itself or that
    successor. *)
Theorem counter_wraps (w : World) (n : Z) :
  GoInt.is_uint64 (count (w_db w)) ->
  1 < n <= GoInt.int_max ->
  (exists i w',
      slave n w = Ret i w' /\
      count (w_db w') = (count (w_db w) + 1) mod 2 ^ 64 /\
      GoInt.is_uint64 (count (w_db w')) /\
      1 <= i <= n - 1 /\
      (count (w_db w) = 2 ^ 64 - 1 -> count (w_db w') = 0 /\ i = 1)) /\
  (live (w_db w) ->
   forall o, exists out w',
     run_op o w = Ret out w' /\
     (count (w_db w') = count (w_db w) \/
      count (w_db w') = (count (w_db w) + 1) mod 2 ^ 64)).
Proof.
  intros Hc Hn. split.
  - eexists _, _. split; [apply (slave_large n w Hn)|]. cbn [w_db].
    rewrite bump_count.
    pose proof (Z.mod_pos_bound ((count (w_db w) + 1) mod 2 ^ 64) (n - 1))
      as Hr.
    split; [reflexivity|].
    split; [apply (to_uint64_range (count (w_db w) + 1))|].
    split; [unfold GoInt.uint64_add, GoInt.to_uint64, GoInt.uint64_mod; lia|].
    intros Hmax. unfold GoInt.uint64_add, GoInt.to_uint64, GoInt.uint64_mod.
    rewrite Hmax. replace (2 ^ 64 - 1 + 1) with (2 ^ 64) by lia.
    rewrite Z.mod_same by lia. rewrite Z.mod_0_l by lia. lia.
  - intros Hlive o.
    destruct (run_op_frame o w Hlive) as (out & w' & Hrun & _ & Hcnt).
    exists out, w'. split; [exact Hrun|]. rewrite Hcnt.
    destruct (selects o && (1 <? len (pdbs (w_db w)))); auto.
Qed.

(** C9, as the code has it: on a live router every operation returns
    and leaves [pdbs] exactly as it was, so the router stays live with
    the master in slot 0; the counter moves only in the operations that
    read from a slave, by one increment modulo [2^64] when there are
    several physical databases, and not at all when there is one. *)
Theorem operations_keep_pdbs (w : World) (o : Op) :
  live (w_db w) ->
  exists out w',
    run_op o w = Ret out w' /\
    pdbs (w_db w') = pdbs (w_db w) /\
    live (w_db w') /\
    count (w_db w') =
      (if selects o && (1 <? len (pdbs (w_db w)))
       then (count (w_db w) + 1) mod 2 ^ 64 else count (w_db w)).
Proof.
  intros Hlive.
  destruct (run_op_frame o w Hlive) as (out & w' & Hrun & Hp & Hcnt).
  exists out, w'. split; [exact Hrun|]. split; [exact Hp|].
  split; [|exact Hcnt].
  apply (live_same_pdbs _ _ Hlive Hp). rewrite Hcnt.
  destruct (selects o && (1 <? len (pdbs (w_db w)))); [|apply Hlive].
  unfold GoInt.is_uint64, GoInt.uint64_mod. apply Z.mod_pos_bound. lia.
Qed.

Lemma live_no_panic w :
  live (w_db w) ->
  panics (Master w) = false /\
  panics (Slave w) = false /\
  panics (Driver w) = false /\
  panics (Begin w) = false /\
  (forall query args, panics (Exec query args w) = false).
Proof.
  intros Hlive.
  destruct (live_master (w_db w) Hlive) as [h0 H0].
  destruct (slave_live w Hlive) as (i & w1 & h & Hs & Hh & _).
  rewrite (Master_at h0 w H0), (Slave_at i h w w1 Hs Hh).
  unfold Driver, Begin, Exec.
  rewrite !(on_master h0 _ w H0).
  repeat split. intros q args. rewrite (on_master h0 _ w H0). reflexivity.
Qed.

(** C10: [Split] at [;] never returns an empty list, the empty string
    giving the one empty segment; so a [DB] that [Open] returns has at
    least one physical database, as many as there are segments, none of
    them nil, and on such a [DB] neither [Master], [Slave], [Driver],
    [Begin] nor [Exec] panics; the empty data source name is opened as
    the single master and is no error of [Open] itself. *)
Theorem Open_at_least_one (sc : Sched) (driverName dataSourceNames : string)
    (tr : list Event) :
  (1 <= length (Split dataSourceNames semicolon))%nat /\
  Split "" semicolon = [""%string] /\
  (forall db tr',
      Open sc driverName dataSourceNames tr = Ret (Some db, None) tr' ->
      (1 <= length (pdbs db))%nat /\
      length (pdbs db) = length (Split dataSourceNames semicolon) /\
      (len (pdbs db) <= GoInt.int_max -> live db)) /\
  (forall w,
      live (w_db w) ->
      panics (Master w) = false /\
      panics (Slave w) = false /\
      panics (Driver w) = false /\
      panics (Begin w) = false /\
      (forall query args, panics (Exec query args w) = false)) /\
  (forall h,
      sqlx_Open driverName "" = inl h ->
      Open sc driverName "" tr =
        Ret (Some (mkDB [Some h] 0), None) (tr ++ [EvOpen driverName ""])).
Proof.
  assert (Hsplit : (1 <= length (Split dataSourceNames semicolon))%nat).
  { destruct (Split_cons dataSourceNames semicolon) as (seg & rest & ->).
    cbn. lia. }
  split; [exact Hsplit|]. split; [reflexivity|].
  split; [|split; [apply live_no_panic|]].
  - intros db tr' Hopen. rewrite Open_unfold in Hopen.
    pose proof (open_failures driverName
                  (Split dataSourceNames semicolon) sc) as Hfails.
    destruct (pick_failure (choice sc) _) as [e|] eqn:Hpick in Hopen;
      [discriminate|].
    injection Hopen as <- _. cbn [pdbs count]. rewrite length_fmap.
    split; [exact Hsplit|]. split; [reflexivity|].
    intros Hmax. unfold live. cbn [pdbs count].
    split.
    { intros Hnil. apply (f_equal length) in Hnil.
      rewrite length_fmap in Hnil. cbn in Hnil. lia. }
    split; [|split; [exact Hmax|]].
    + apply all_opened. apply Permutation_nil_r. rewrite <- Hfails.
      destruct (omap _ (order sc _)) as [|x fails] eqn:Hf; [reflexivity|].
      destruct (pick_failure_some (choice sc) (x :: fails)) as [y Hy];
        [discriminate|].
      rewrite Hy in Hpick. discriminate.
    + unfold GoInt.is_uint64, GoInt.uint64_mod. lia.
  - intros h Hh. rewrite Open_unfold. cbn [Split length].
    pose proof (order_perm sc 1) as Hord. cbn [seq] in Hord.
    apply Permutation_singleton_r in Hord. rewrite Hord.
    cbn [omap list_omap lookup list_lookup mbind option_bind fmap
           option_fmap option_map list_fmap].
    unfold open_error, opened. rewrite Hh. reflexivity.
Qed.

(** ** Calls that go to every physical database *)

Lemma lookup_all_some (hs : list handle) (i : nat) h :
  hs !! i = Some h -> (Some <$> hs) !! i = Some (Some h).
Proof. intros H. rewrite list_lookup_fmap, H. reflexivity. Qed.

Lemma calls_at_cons c hs i h idxs :
  hs !! i = Some h ->
  calls_at c hs (i :: idxs) = EvCall h c :: calls_at c hs idxs.
Proof. intros H. unfold calls_at. cbn [omap list_omap]. rewrite H. reflexivity. Qed.

Lemma calls_at_seq c hs :
  calls_at c hs (seq 0 (length hs)) = (fun h => EvCall h c) <$> hs.
Proof.
  unfold calls_at.
  rewrite (omap_seq_lookup (fun o => (fun h => EvCall h c) <$> o) hs []).
  apply omap_Some_fmap.
Qed.

Lemma calls_at_order c hs sc :
  calls_at c hs (order sc (length hs)) ≡ₚ (fun h => EvCall h c) <$> hs.
Proof.
  rewrite <- calls_at_seq. unfold calls_at.
  rewrite (order_perm sc (length hs)). reflexivity.
Qed.

(** The loop of the three setters, on slots that are all filled. *)
Lemma for_each_calls c db hs :
  pdbs db = Some <$> hs ->
  forall idxs tr,
    Forall (fun i => (i < length hs)%nat) idxs ->
    for_each idxs
      (fun i => ps' <- load_pdbs ;;
                p <- index ps' (Z.of_nat i) ;;
                method p c ;;; ret tt) (mkWorld db tr) =
      Ret tt (mkWorld db (tr ++ calls_at c hs idxs)).
Proof.
  intros Hps. induction idxs as [|i idxs IH]; intros tr Hall.
  - cbn. rewrite app_nil_r. reflexivity.
  - apply Forall_cons in Hall as [Hi Hall].
    destruct (lookup_lt_is_Some_2 _ _ Hi) as [h Hh].
    cbn [for_each]. unfold bind at 1. unfold bind at 1.
    unfold load_pdbs at 1. cbn [w_db]. unfold bind at 1.
    rewrite (index_lookup _ _ (Some h))
      by (rewrite Hps; apply lookup_all_some; exact Hh).
    unfold bind at 1. rewrite method_call. unfold ret at 1.
    cbn [w_db w_trace]. rewrite (IH _ Hall).
    rewrite (calls_at_cons c hs i h idxs Hh), <- app_assoc. reflexivity.
Qed.

Lemma each_pdb_calls c w hs :
  pdbs (w_db w) = Some <$> hs ->
  each_pdb c w =
    Ret tt (mkWorld (w_db w) (w_trace w ++ calls_at c hs (seq 0 (length hs)))).
Proof.
  intros Hps. destruct w as [db tr]. unfold each_pdb. unfold bind at 1.
  unfold load_pdbs. cbn [w_db w_trace] in Hps |- *.
  rewrite Hps at 1. rewrite length_fmap.
  apply (for_each_calls c db hs Hps).
  apply Forall_forall. intros i Hi. apply elem_of_seq in Hi. lia.
Qed.

(** The work of [Close] and [Ping] under [scatter], on slots that are all
    filled: the calls made and the errors gathered from their answers. *)
Lemma gather_calls c db hs :
  pdbs db = Some <$> hs ->
  forall idxs tr,
    Forall (fun i => (i < length hs)%nat) idxs ->
    gather (call_one c) idxs (mkWorld db tr) =
      Ret (omap reply_error (answers tr (calls_at c hs idxs)))
          (mkWorld db (tr ++ calls_at c hs idxs)).
Proof.
  intros Hps. induction idxs as [|i idxs IH]; intros tr Hall.
  - cbn. rewrite app_nil_r. reflexivity.
  - apply Forall_cons in Hall as [Hi Hall].
    destruct (lookup_lt_is_Some_2 _ _ Hi) as [h Hh].
    cbn [gather]. unfold bind at 1. unfold call_one at 1.
    unfold bind at 1. unfold load_pdbs at 1. cbn [w_db].
    unfold bind at 1.
    rewrite (index_lookup _ _ (Some h))
      by (rewrite Hps; apply lookup_all_some; exact Hh).
    unfold bind at 1. rewrite method_call. unfold ret at 1.
    cbn [w_db w_trace]. unfold bind at 1. rewrite (IH _ Hall).
    rewrite (calls_at_cons c hs i h idxs Hh), <- app_assoc.
    cbn [answers omap list_omap app]. unfold ret.
    destruct (reply_error (phys tr h c)); reflexivity.
Qed.

Lemma scatter_calls c sc w hs :
  pdbs (w_db w) = Some <$> hs ->
  (ps <- load_pdbs ;; scatter sc (len ps) (call_one c)) w =
    let evs := calls_at c hs (order sc (length hs)) in
    Ret (pick_failure (choice sc) (omap reply_error (answers (w_trace w) evs)))
        (mkWorld (w_db w) (w_trace w ++ evs)).
Proof.
  intros Hps. destruct w as [db tr]. unfold bind at 1. unfold load_pdbs.
  cbn [w_db w_trace] in Hps |- *. unfold scatter, bind, len.
  rewrite Hps at 1. rewrite length_fmap, Nat2Z.id.
  rewrite (gather_calls c db hs Hps _ tr (order_bound sc _)).
  reflexivity.
Qed.

Lemma pick_failure_cases c fails :
  (fails = [] -> pick_failure c fails = None) /\
  (fails <> [] -> exists x, pick_failure c fails = Some x /\ x ∈ fails).
Proof.
  split.
  - intros ->. apply pick_failure_nil.
  - intros Hne. destruct (pick_failure_some c fails Hne) as [x Hx].
    exists x. split; [exact Hx|]. apply (pick_failure_elem _ _ _ Hx).
Qed.

(** X3: the three setters call every physical database once, in slot order,
    with the value they were given, and leave the [DB] object alone; with
    no physical database they do nothing. *)
Theorem setters_reach_every_pdb (w : World) (hs : list handle) :
  pdbs (w_db w) = Some <$> hs ->
  let applied c :=
    Ret tt (mkWorld (w_db w) (w_trace w ++ ((fun h => EvCall h c) <$> hs))) in
  (forall n, SetMaxIdleConns n w = applied (CallSetMaxIdleConns n)) /\
  (forall n, SetMaxOpenConns n w = applied (CallSetMaxOpenConns n)) /\
  (forall d, SetConnMaxLifetime d w = applied (CallSetConnMaxLifetime d)).
Proof.
  intros Hps applied. subst applied. cbv beta.
  repeat split; intros x;
    unfold SetMaxIdleConns, SetMaxOpenConns, SetConnMaxLifetime;
    rewrite (each_pdb_calls _ w hs Hps), calls_at_seq; reflexivity.
Qed.

(** X1: [Close] calls Close on every physical database exactly once, whatever
    the others answered, and leaves the [DB] object as it was, slots
    included; it returns no error when no call answered with one, and
    otherwise the error of one of the calls. *)
Theorem Close_reaches_every_pdb (sc : Sched) (w : World) (hs : list handle) :
  pdbs (w_db w) = Some <$> hs ->
  exists evs e,
    Close sc w = Ret e (mkWorld (w_db w) (w_trace w ++ evs)) /\
    evs ≡ₚ (fun h => EvCall h CallClose) <$> hs /\
    let errs := omap reply_error (answers (w_trace w) evs) in
    (errs = [] -> e = None) /\
    (errs <> [] -> exists x, e = Some x /\ x ∈ errs).
Proof.
  intros Hps. unfold Close. rewrite (scatter_calls CallClose sc w hs Hps).
  cbv zeta. eexists _, _. split; [reflexivity|].
  split; [apply calls_at_order|]. apply pick_failure_cases.
Qed.

(** X2: [Ping] pings every physical database exactly once, whatever the
    others answered, and leaves the [DB] object as it was; it returns no
    error when no ping answered with one, and otherwise the error of one
    of the pings. *)
Theorem Ping_reaches_every_pdb (sc : Sched) (w : World) (hs : list handle) :
  pdbs (w_db w) = Some <$> hs ->
  exists evs e,
    Ping sc w = Ret e (mkWorld (w_db w) (w_trace w ++ evs)) /\
    evs ≡ₚ (fun h => EvCall h CallPing) <$> hs /\
    let errs := omap reply_error (answers (w_trace w) evs) in
    (errs = [] -> e = None) /\
    (errs <> [] -> exists x, e = Some x /\ x ∈ errs).
Proof.
  intros Hps. unfold Ping. rewrite (scatter_calls CallPing sc w hs Hps).
  cbv zeta. eexists _, _. split; [reflexivity|].
  split; [apply calls_at_order|]. apply pick_failure_cases.
Qed.

(** X4: on a [DB] without physical databases, the zero value for one, every
    operation that goes to the master or to a slave panics on the index,
    [Slave] included, while the setters, [Ping] and [Close] return
    without a call and without an error. *)
Theorem no_pdbs_behaviour (sc : Sched) (w : World) :
  pdbs (w_db w) = [] ->
  Master w = Panic /\
  Slave w = Panic /\
  Driver w = Panic /\
  Begin w = Panic /\
  (forall query args, Exec query args w = Panic) /\
  (forall query, Preparex query w = Panic) /\
  (forall query, PreparexSlave query w = Panic) /\
  (forall dest query args, Select dest query args w = Panic) /\
  (forall query args, QueryxSlave query args w = Panic) /\
  (forall n, SetMaxIdleConns n w = Ret tt w) /\
  (forall n, SetMaxOpenConns n w = Ret tt w) /\
  (forall d, SetConnMaxLifetime d w = Ret tt w) /\
  Ping sc w = Ret None w /\
  Close sc w = Ret None w.
Proof.
  destruct w as [[ps c] tr]. cbn [w_db pdbs]. intros ->.
  repeat split; intros; reflexivity.
Qed.

(** ** The data source names Open works on *)

(** What a [DB] that [Open] returned is made of. *)
Lemma Open_success sc driverName dataSourceNames tr db tr' :
  Open sc driverName dataSourceNames tr = Ret (Some db, None) tr' ->
  let conns := Split dataSourceNames semicolon in
  db = mkDB (opened driverName <$> conns) 0 /\
  omap (open_error driverName) conns = [] /\
  exists evs, tr' = tr ++ evs.
Proof.
  intros Hopen conns. rewrite Open_unfold in Hopen. fold conns in Hopen.
  pose proof (open_failures driverName conns sc) as Hfails.
  destruct (pick_failure (choice sc) _) as [e|] eqn:Hpick in Hopen;
    [discriminate|].
  injection Hopen as <- <-. split; [reflexivity|]. split; [|eauto].
  apply Permutation_nil_r. rewrite <- Hfails.
  destruct (omap _ (order sc _)) as [|x fails] eqn:Hf; [reflexivity|].
  destruct (pick_failure_some (choice sc) (x :: fails)) as [y Hy];
    [discriminate|].
  rewrite Hy in Hpick. discriminate.
Qed.

Lemma opened_handle driverName conns (i : nat) c :
  omap (open_error driverName) conns = [] ->
  conns !! i = Some c ->
  exists h, sqlx_Open driverName c = inl h /\ opened driverName c = Some h.
Proof.
  intros Hnone Hc. unfold opened.
  destruct (sqlx_Open driverName c) as [h|e] eqn:Ho; [eauto|].
  exfalso. assert (He : e ∈ omap (open_error driverName) conns).
  { apply list_elem_of_omap. exists c.
    split; [apply (list_elem_of_lookup_2 _ i); exact Hc|].
    unfold open_error. rewrite Ho. reflexivity. }
  rewrite Hnone in He. inversion He.
Qed.

(** X5: the segments [Open] works on are free of [;] and give the data source
    names back when joined with [;]; a [DB] it returns has one slot more
    than the data source names have [;], slot [i] holding what sqlx
    opened segment [i] to. *)
Theorem Open_segments (sc : Sched) (driverName dataSourceNames : string)
    (tr : list Event) :
  let conns := Split dataSourceNames semicolon in
  String.concat ";" conns = dataSourceNames /\
  Forall (fun c => occurrences semicolon c = O) conns /\
  (forall db tr',
      Open sc driverName dataSourceNames tr = Ret (Some db, None) tr' ->
      length (pdbs db) = S (occurrences semicolon dataSourceNames) /\
      forall i c,
        conns !! i = Some c ->
        exists h, pdbs db !! i = Some (Some h) /\
                  sqlx_Open driverName c = inl h).
Proof.
  intros conns. split; [apply (Split_concat dataSourceNames semicolon)|].
  split; [apply Split_no_sep|].
  intros db tr' Hopen.
  destruct (Open_success _ _ _ _ _ _ Hopen) as (-> & Hnone & _).
  fold conns in Hnone |- *. cbn [pdbs]. split.
  - rewrite length_fmap. apply Split_length.
  - intros i c Hc.
    destruct (opened_handle driverName conns i c Hnone Hc) as (h & Ho & Hh).
    exists h. split; [|exact Ho].
    rewrite list_lookup_fmap, Hc. cbn [fmap option_fmap option_map].
    rewrite Hh. reflexivity.
Qed.

(** ** Operations one after the other *)

Lemma count_reads_cons o os :
  count_reads (o :: os) =
    ((if selects o then 1 else 0) + count_reads os)%nat.
Proof. unfold count_reads. cbn [List.filter]. destruct (selects o); reflexivity. Qed.

(** X7: any operations in any order on a live router all return and leave
    the slots alone; with slaves present the counter has moved by the
    number of reads among them, modulo [2^64], and with the master alone
    it has not moved. *)
Theorem run_ops_counter (os : list Op) (w : World) :
  live (w_db w) ->
  exists outs w',
    run_ops os w = Ret outs w' /\
    length outs = length os /\
    pdbs (w_db w') = pdbs (w_db w) /\
    count (w_db w') =
      (if 1 <? len (pdbs (w_db w))
       then (count (w_db w) + Z.of_nat (count_reads os)) mod 2 ^ 64
       else count (w_db w)).
Proof.
  revert w. induction os as [|o os IH]; intros w Hlive.
  - exists [], w. split; [reflexivity|]. split; [reflexivity|].
    split; [reflexivity|]. destruct (1 <? len (pdbs (w_db w))); [|reflexivity].
    change (Z.of_nat (count_reads [])) with 0. rewrite Z.add_0_r.
    symmetry. apply Z.mod_small. apply Hlive.
  - destruct (run_op_frame o w Hlive) as (out & w1 & Hrun & Hp1 & Hc1).
    assert (Hlive1 : live (w_db w1)).
    { apply (live_same_pdbs _ _ Hlive Hp1). rewrite Hc1.
      destruct (selects o && (1 <? len (pdbs (w_db w)))); [|apply Hlive].
      unfold GoInt.is_uint64, GoInt.uint64_mod. apply Z.mod_pos_bound. lia. }
    destruct (IH w1 Hlive1) as (outs & w' & Hrest & Hlen & Hp & Hc).
    exists (out :: outs), w'. cbn [run_ops]. unfold bind.
    rewrite Hrun, Hrest. unfold ret.
    split; [reflexivity|]. split; [cbn [length]; rewrite Hlen; reflexivity|].
    split; [rewrite Hp; exact Hp1|].
    rewrite Hc, Hp1, Hc1, count_reads_cons.
    destruct (1 <? len (pdbs (w_db w))); [|rewrite andb_false_r; reflexivity].
    rewrite andb_true_r. destruct (selects o).
    + rewrite Zplus_mod_idemp_l. f_equal. lia.
    + f_equal.
Qed.

(** ** The calls do not depend on the answers *)

Lemma live_handles db : live db -> pdbs db = Some <$> handles db.
Proof.
  intros (_ & Hall & _). unfold handles.
  induction Hall as [|p ps [h ->] _ IH]; [reflexivity|].
  cbn. rewrite <- IH. reflexivity.
Qed.

Lemma handles_lookup db hs (i : nat) h :
  pdbs db = Some <$> hs -> pdbs db !! i = Some (Some h) -> hs !! i = Some h.
Proof.
  intros Hps Hh. rewrite Hps, list_lookup_fmap in Hh.
  destruct (hs !! i) as [h'|]; [|discriminate].
  injection Hh as ->. reflexivity.
Qed.

Lemma calls_at_one c hs i h :
  hs !! i = Some h -> calls_at c hs [i] = [EvCall h c].
Proof. intros H. rewrite (calls_at_cons c hs i h [] H). reflexivity. Qed.

Lemma slave_slot w :
  live (w_db w) ->
  slave (len (pdbs (w_db w))) w =
    Ret (Z.of_nat (selected_slot (w_db w)))
        (mkWorld (if 1 <? len (pdbs (w_db w)) then bump (w_db w) else w_db w)
                 (w_trace w)) /\
  (selected_slot (w_db w) < length (pdbs (w_db w)))%nat.
Proof.
  intros (Hne & _ & Hmax & _). unfold selected_slot.
  destruct (Z.ltb_spec 1 (len (pdbs (w_db w)))) as [Hn|Hn].
  - pose proof (Z.mod_pos_bound (GoInt.uint64_add (count (w_db w)) 1)
                  (len (pdbs (w_db w)) - 1)) as Hr.
    rewrite Z2Nat.id by lia. split; [apply slave_large; lia|].
    unfold len in Hr, Hn |- *. lia.
  - split; [rewrite (slave_small _ w Hn); destruct w; reflexivity|].
    destruct (pdbs (w_db w)); [congruence | cbn; lia].
Qed.

Lemma live_after_op o db : live db -> live (after_op o db).
Proof.
  intros Hlive. unfold after_op.
  destruct (selects o && (1 <? len (pdbs db))); [|exact Hlive].
  apply (live_same_pdbs db _ Hlive); [reflexivity|].
  apply to_uint64_range.
Qed.

(** What an operation asks of the physical layer and the state it leaves
    are those of [emitted] and [after_op], which know no answer. *)
Lemma run_op_route o w :
  live (w_db w) ->
  exists out,
    run_op o w =
      Ret out (mkWorld (after_op o (w_db w))
                       (w_trace w ++ emitted o (w_db w))).
Proof.
  intros Hlive. pose proof (live_handles _ Hlive) as Hps.
  destruct (live_master (w_db w) Hlive) as [h0 H0].
  pose proof (handles_lookup _ _ _ _ Hps H0) as Hh0.
  destruct (slave_slot w Hlive) as [Hs Hlt].
  destruct (live_lookup _ _ Hlive Hlt) as [h Hh].
  pose proof (handles_lookup _ _ _ _ Hps Hh) as Hhs.
  pose proof (Slave_at _ h w _ Hs Hh) as HS.
  destruct (master_call o) as [c|] eqn:Hm.
  { rewrite (run_master_op o c h0 w Hm H0). eexists. f_equal. f_equal.
    - destruct o; try discriminate; reflexivity.
    - destruct o; try discriminate; injection Hm as <-;
        cbn [emitted master_call slave_call];
        rewrite (calls_at_one _ _ _ _ Hh0); reflexivity. }
  destruct (slave_call o) as [c|] eqn:Hr.
  { rewrite (run_slave_op o c _ h w _ Hr Hs Hh). eexists.
    cbn [w_db w_trace]. f_equal. f_equal.
    - destruct o; try discriminate; reflexivity.
    - destruct o; try discriminate; injection Hr as <-;
        cbn [emitted master_call slave_call];
        rewrite (calls_at_one _ _ _ _ Hhs); reflexivity. }
  destruct o; try discriminate; cbn [run_op]; unfold after_op;
    cbn [selects andb emitted].
  - unfold bind at 1. unfold Ping.
    rewrite (scatter_calls CallPing sc w _ Hps). cbv zeta. unfold ret.
    eexists. reflexivity.
  - unfold SetMaxIdleConns, bind. rewrite (each_pdb_calls _ w _ Hps).
    unfold ret. eexists. reflexivity.
  - unfold SetMaxOpenConns, bind. rewrite (each_pdb_calls _ w _ Hps).
    unfold ret. eexists. reflexivity.
  - unfold SetConnMaxLifetime, bind. rewrite (each_pdb_calls _ w _ Hps).
    unfold ret. eexists. reflexivity.
  - unfold bind. rewrite HS. unfold ret. rewrite app_nil_r.
    eexists. reflexivity.
  - unfold bind. rewrite (Master_at h0 w H0). unfold ret.
    rewrite app_nil_r. destruct w. eexists. reflexivity.
Qed.

Lemma run_ops_route os :
  forall w,
    live (w_db w) ->
    exists outs,
      run_ops os w =
        Ret outs (mkWorld (route os (w_db w)).1
                          (w_trace w ++ (route os (w_db w)).2)).
Proof.
  induction os as [|o os IH]; intros w Hlive.
  - exists []. cbn. rewrite app_nil_r. destruct w. reflexivity.
  - destruct (run_op_route o w Hlive) as [out Hrun].
    destruct (IH (mkWorld (after_op o (w_db w))
                          (w_trace w ++ emitted o (w_db w))))
      as [outs Hrest]; [apply live_after_op; exact Hlive|].
    exists (out :: outs). cbn [run_ops]. unfold bind.
    rewrite Hrun, Hrest. unfold ret. cbn [w_db w_trace route].
    destruct (route os (after_op o (w_db w))) as [db' evs].
    cbn [fst snd]. rewrite app_assoc. reflexivity.
Qed.

Lemma all_some_handles (ps : list (option handle)) :
  Forall is_Some ps -> ps = Some <$> omap id ps.
Proof.
  induction 1 as [|p ps [h ->] _ IH]; [reflexivity|].
  cbn. rewrite <- IH. reflexivity.
Qed.

(** X6: [Close] on a [DB] that [Open] returned closes, exactly once each,
    what sqlx opened every segment of the data source names to, and
    nothing else. *)
Theorem Open_then_Close (sc sc' : Sched) (driverName dataSourceNames : string)
    (tr tr' : list Event) (db : DB) :
  Open sc driverName dataSourceNames tr = Ret (Some db, None) tr' ->
  exists hs evs e,
    Forall2 (fun c h => sqlx_Open driverName c = inl h)
            (Split dataSourceNames semicolon) hs /\
    Close sc' (mkWorld db tr') = Ret e (mkWorld db (tr' ++ evs)) /\
    evs ≡ₚ (fun h => EvCall h CallClose) <$> hs.
Proof.
  intros Hopen.
  destruct (Open_success _ _ _ _ _ _ Hopen) as (-> & Hnone & _).
  set (conns := Split dataSourceNames semicolon) in Hnone |- *.
  set (db := mkDB (opened driverName <$> conns) 0).
  assert (Hps : pdbs db = Some <$> handles db)
    by (apply all_some_handles, all_opened; exact Hnone).
  exists (handles db).
  unfold Close. rewrite (scatter_calls CallClose sc' (mkWorld db tr') _ Hps).
  cbv zeta. eexists _, _. split; [|split; [reflexivity|]].
  - apply Forall2_same_length_lookup. split.
    + apply (f_equal length) in Hps. subst db. cbn [pdbs] in Hps.
      rewrite !length_fmap in Hps. exact Hps.
    + intros i c h Hc Hh.
      destruct (opened_handle driverName conns i c Hnone Hc) as (h' & Ho & Hh').
      assert (Hi : pdbs db !! i = Some (Some h')).
      { subst db. cbn [pdbs]. rewrite list_lookup_fmap, Hc.
        cbn [fmap option_fmap option_map]. rewrite Hh'. reflexivity. }
      rewrite (handles_lookup db _ i h' Hps Hi) in Hh.
      injection Hh as <-. exact Ho.
  - cbn [w_db]. apply calls_at_order.
Qed.

End Router.

(** ** The model at work *)

(** A master and three slaves, the counter at [c], nothing asked yet. *)
Abbreviation four_pdbs c :=
  (mkWorld (handle := nat) (value := Z)
           (mkDB [Some 10%nat; Some 11%nat; Some 12%nat; Some 13%nat] c) []).

(** A master alone. *)
Abbreviation one_pdb c :=
  (mkWorld (handle := nat) (value := Z) (mkDB [Some 10%nat] c) []).

Example Split_three :
  Split "master;slave1;slave2" semicolon = ["master"; "slave1"; "slave2"]%string.
Proof. reflexivity. Qed.

Example Split_trailing : Split "a;" semicolon = ["a"; ""]%string.
Proof. reflexivity. Qed.

Example Open_three :
  Open Mock.sqlx_Open (mkSched [2%nat; 0%nat] 0) "mock" "aaaaa;b;cc" [] =
    Ret (Some (mkDB [Some 5%nat; Some 1%nat; Some 2%nat] 0), None)
        [EvOpen (handle := nat) (value := Z) "mock" "cc";
         EvOpen "mock" "aaaaa"; EvOpen "mock" "b"].
Proof. reflexivity. Qed.

Example Open_one_down :
  Open (value := Z) Mock.sqlx_Open (mkSched [] 0) "mock" "a;down;b" [] =
    Ret (None, Some "refused"%string)
        [EvOpen "mock" "a"; EvOpen "mock" "down"; EvOpen "mock" "b"].
Proof. reflexivity. Qed.

Example Select_three_times :
  run_ops Mock.phys Mock.reply_error
    [OpSelect 0 "q" []; OpSelect 0 "q" []; OpExec "x" []; OpSelect 0 "q" []]
    (mkWorld (handle := nat) (mkDB [Some 10%nat; Some 11%nat; Some 12%nat] 0) [])
  = Ret [OutReply 12%nat; OutReply 12%nat; OutReply 12%nat; OutReply 15%nat]
        (mkWorld (mkDB [Some 10%nat; Some 11%nat; Some 12%nat] 3)
           [EvCall 12%nat (CallSelect 0 "q" []);
            EvCall 11%nat (CallSelect 0 "q" []);
            EvCall 10%nat (CallExec "x" []);
            EvCall 12%nat (CallSelect 0 "q" [])]).
Proof. reflexivity. Qed.

Lemma live_four c : GoInt.is_uint64 c -> live (w_db (four_pdbs c)).
Proof.
  intros Hc. unfold live. cbn [w_db pdbs count].
  split; [discriminate|]. split; [|split; [|exact Hc]].
  - repeat constructor; eexists; reflexivity.
  - unfold len, GoInt.int_max. cbn [length]. lia.
Qed.

Lemma live_one c : GoInt.is_uint64 c -> live (w_db (one_pdb c)).
Proof.
  intros Hc. unfold live. cbn [w_db pdbs count].
  split; [discriminate|]. split; [|split; [|exact Hc]].
  - repeat constructor; eexists; reflexivity.
  - unfold len, GoInt.int_max. cbn [length]. lia.
Qed.

Lemma zero_is_uint64 : GoInt.is_uint64 0.
Proof. unfold GoInt.is_uint64, GoInt.uint64_mod. lia. Qed.

Lemma slave_index_in_range_witness :
  4 <= GoInt.int_max /\
  1 <= 4 /\
  exists i w', slave 4 (four_pdbs 0) = Ret i w' /\ 0 <= i <= 4 - 1.
Proof.
  assert (H : 4 <= GoInt.int_max) by (unfold GoInt.int_max; lia).
  split; [exact H|]. split; [lia|].
  apply (slave_index_in_range 4 (four_pdbs 0) H). lia.
Defined.

Lemma slave_round_robin_witness :
  1 < 4 <= GoInt.int_max /\
  Z.of_nat 6 < 2 ^ 64 /\
  count (w_db (four_pdbs 0)) = 0 /\
  exists w',
    slave_calls 6 4 (four_pdbs 0) = Ret [2; 3; 1; 2; 3; 1] w' /\
    count (w_db w') = 6 /\
    pdbs (w_db w') = pdbs (w_db (four_pdbs 0)).
Proof.
  assert (Hn : 1 < 4 <= GoInt.int_max) by (unfold GoInt.int_max; lia).
  assert (Hk : Z.of_nat 6 < 2 ^ 64) by lia.
  split; [exact Hn|]. split; [exact Hk|]. split; [reflexivity|].
  exact (proj2 (slave_round_robin 4 (four_pdbs 0) Hn) 6%nat Hk eq_refl).
Defined.

Lemma map_fmap {A B} (f : A -> B) (l : list A) : map f l = f <$> l.
Proof. induction l as [|x l IH]; [reflexivity|]. cbn. rewrite IH. reflexivity. Qed.

(** C2 as it is written fails once the counter has wrapped: with four
    physical databases and the counter at 0, calls number [2^64 - 1] and
    [2^64] both return 1, where the rotation, and [1 + 2^64 mod 3], ask
    for 2 at the second of them. *)
Lemma slave_rotation_breaks_at_wrap :
  exists l w',
    slave_calls (Z.to_nat (2 ^ 64)) 4 (four_pdbs 0) = Ret l w' /\
    l !! Z.to_nat (2 ^ 64 - 2) = Some 1 /\
    l !! Z.to_nat (2 ^ 64 - 1) = Some 1 /\
    1 + 2 ^ 64 mod (4 - 1) = 2.
Proof.
  assert (Hn : 1 < 4 <= GoInt.int_max) by (unfold GoInt.int_max; lia).
  remember (Z.to_nat (2 ^ 64)) as K eqn:HK.
  remember (Z.to_nat (2 ^ 64 - 2)) as J1 eqn:HJ1.
  remember (Z.to_nat (2 ^ 64 - 1)) as J2 eqn:HJ2.
  assert (HKz : Z.of_nat K = 2 ^ 64) by lia.
  assert (HJ1z : Z.of_nat (S J1) = 2 ^ 64 - 1) by lia.
  assert (HJ2z : Z.of_nat (S J2) = 2 ^ 64) by lia.
  rewrite (slave_calls_run 4 Hn). eexists _, _. split; [reflexivity|].
  rewrite map_fmap, !list_lookup_fmap.
  rewrite (lookup_seq_lt 1 K J1) by lia.
  rewrite (lookup_seq_lt 1 K J2) by lia.
  cbn [fmap option_fmap option_map w_db].
  change (1 + J1)%nat with (S J1). change (1 + J2)%nat with (S J2).
  rewrite !iter_bump_count by exact zero_is_uint64.
  cbn [count]. rewrite HJ1z, HJ2z.
  repeat split.
Qed.

Lemma writes_go_to_master_witness :
  pdbs (w_db (four_pdbs 7)) !! 0%nat = Some (Some 10%nat) /\
  Exec Mock.phys "insert" [1; 2] (four_pdbs 7) =
    Ret 10%nat
        (mkWorld (w_db (four_pdbs 7)) [EvCall 10%nat (CallExec "insert" [1; 2])]).
Proof.
  split; [reflexivity|].
  exact (proj1 (proj2 (writes_go_to_master Mock.phys (four_pdbs 7) 10%nat
                         eq_refl)) "insert"%string [1; 2]).
Defined.

Lemma reads_go_to_selected_slave_witness :
  live (w_db (one_pdb 5)) /\
  exists (i : nat) w1 h,
    slave (len (pdbs (w_db (one_pdb 5)))) (one_pdb 5) = Ret (Z.of_nat i) w1 /\
    pdbs (w_db (one_pdb 5)) !! i = Some (Some h) /\
    Select Mock.phys 0 "q" [] (one_pdb 5) =
      Ret (Mock.phys (w_trace (one_pdb 5)) h (CallSelect 0 "q" []))
          (mkWorld (w_db w1)
             (w_trace (one_pdb 5) ++ [EvCall h (CallSelect 0 "q" [])])) /\
    i = 0%nat /\ w1 = one_pdb 5.
Proof.
  assert (Hlive : live (w_db (one_pdb 5))).
  { apply live_one. unfold GoInt.is_uint64, GoInt.uint64_mod. lia. }
  split; [exact Hlive|].
  destruct (reads_go_to_selected_slave Mock.phys (one_pdb 5) Hlive)
    as (i & w1 & h & Hs & Hh & _ & (_ & HSel & _) & H1).
  exists i, w1, h. split; [exact Hs|]. split; [exact Hh|].
  split; [apply HSel|]. apply H1. reflexivity.
Defined.

Lemma scatter_contract_witness :
  0 <= 3 /\
  exists e s' l,
    scatter (mkSched [1%nat] 0) 3
      (recorded (fun i s => (if i =? 1 then Some "no"%string else None,
                             (s + 1)%nat)))
      (0%nat, []) = Ret e (s', l) /\
    l.*1 ≡ₚ Z.of_nat <$> seq 0 (Z.to_nat 3).
Proof.
  split; [lia|].
  destruct (scatter_contract (mkSched [1%nat] 0) 3
              (fun i s => (if i =? 1 then Some "no"%string else None,
                           (s + 1)%nat)) 0%nat)
    as (e & s' & l & Hrun & Hperm & _); [lia|].
  exists e, s', l. split; [exact Hrun | exact Hperm].
Defined.

Lemma exec_keeps_rotation_witness :
  live (w_db (four_pdbs 0)) /\
  exists outs outs' db,
    run_ops Mock.phys Mock.reply_error
      [OpSelect 0 "q" []; OpExec "x" []; OpQueryxSlave "r" []] (four_pdbs 0) =
      Ret outs
          (mkWorld db [EvCall 12%nat (CallSelect 0 "q" []);
                       EvCall 10%nat (CallExec "x" []);
                       EvCall 13%nat (CallQueryx "r" [])]) /\
    run_ops Mock.phys Mock.reply_error
      [OpSelect 0 "q" []; OpQueryxSlave "r" []] (four_pdbs 0) =
      Ret outs'
          (mkWorld db [EvCall 12%nat (CallSelect 0 "q" []);
                       EvCall 13%nat (CallQueryx "r" [])]).
Proof.
  assert (Hlive : live (w_db (four_pdbs 0))) by exact (live_four 0 zero_is_uint64).
  split; [exact Hlive|].
  destruct (exec_keeps_rotation Mock.phys Mock.reply_error (four_pdbs 0)
              (OpSelect 0 "q" []) (OpExec "x" []) (OpQueryxSlave "r" [])
              _ _ _ Hlive eq_refl eq_refl eq_refl)
    as (i1 & i2 & h0 & h1 & h2 & wa & wb & outs & outs'
        & H0 & H1 & H2 & Hs1 & Hs2 & Hrun & Hrun' & _).
  injection H0 as <-.
  change (slave (len (pdbs (w_db (four_pdbs 0)))) (four_pdbs 0))
    with (Ret (S:=World) 2 (four_pdbs 1)) in Hs1.
  injection Hs1 as Hi1 <-.
  assert (i1 = 2%nat) by lia. subst i1.
  change (slave (len (pdbs (w_db (four_pdbs 0)))) (four_pdbs 1))
    with (Ret (S:=World) 3 (four_pdbs 2)) in Hs2.
  injection Hs2 as Hi2 <-.
  assert (i2 = 3%nat) by lia. subst i2.
  injection H1 as <-. injection H2 as <-.
  exists outs, outs', (w_db (four_pdbs 2)).
  split; [exact Hrun | exact Hrun'].
Defined.

Lemma counter_wraps_witness :
  GoInt.is_uint64 (count (w_db (four_pdbs (2 ^ 64 - 1)))) /\
  1 < 4 <= GoInt.int_max /\
  exists i w',
    slave 4 (four_pdbs (2 ^ 64 - 1)) = Ret i w' /\
    count (w_db w') = 0 /\ i = 1.
Proof.
  assert (Hc : GoInt.is_uint64 (count (w_db (four_pdbs (2 ^ 64 - 1))))).
  { unfold GoInt.is_uint64, GoInt.uint64_mod. cbn [w_db count]. lia. }
  assert (Hn : 1 < 4 <= GoInt.int_max) by (unfold GoInt.int_max; lia).
  split; [exact Hc|]. split; [exact Hn|].
  destruct (counter_wraps Mock.phys Mock.reply_error
              (four_pdbs (2 ^ 64 - 1)) 4 Hc Hn)
    as [(i & w' & Hs & _ & _ & _ & Hwrap) _].
  exists i, w'. split; [exact Hs|]. apply Hwrap. reflexivity.
Defined.

Lemma operations_keep_pdbs_witness :
  live (w_db (four_pdbs 0)) /\
  exists out w',
    run_op Mock.phys Mock.reply_error (OpSelect 0 "q" []) (four_pdbs 0) =
      Ret out w' /\
    pdbs (w_db w') = pdbs (w_db (four_pdbs 0)) /\
    live (w_db w') /\
    count (w_db w') = 1.
Proof.
  assert (Hlive : live (w_db (four_pdbs 0)))
    by exact (live_four 0 zero_is_uint64).
  split; [exact Hlive|].
  exact (operations_keep_pdbs Mock.phys Mock.reply_error (four_pdbs 0)
           (OpSelect 0 "q" []) Hlive).
Defined.

(** C9 as it is written fails on a router with the master alone: a
    [Select] there runs [slave], which returns slot 0, and the counter is
    not incremented. *)
Lemma single_pdb_selection_keeps_counter :
  live (w_db (one_pdb 0)) /\
  slave (len (pdbs (w_db (one_pdb 0)))) (one_pdb 0) = Ret 0 (one_pdb 0) /\
  run_op Mock.phys Mock.reply_error (OpSelect 0 "q" []) (one_pdb 0) =
    Ret (OutReply 10%nat)
        (mkWorld (mkDB [Some 10%nat] 0) [EvCall 10%nat (CallSelect 0 "q" [])]) /\
  count (mkDB [Some 10%nat] 0) <> (count (w_db (one_pdb 0)) + 1) mod 2 ^ 64.
Proof.
  split; [exact (live_one 0 zero_is_uint64)|].
  split; [reflexivity|]. split; [reflexivity|].
  cbn [w_db count]. discriminate.
Qed.

Lemma Open_at_least_one_witness :
  Open (value := Z) Mock.sqlx_Open (mkSched [] 0) "mock" "" [] =
    Ret (Some (mkDB [Some 0%nat] 0), None) [EvOpen "mock" ""] /\
  len (pdbs (mkDB [Some 0%nat] 0)) <= GoInt.int_max /\
  live (mkDB [Some 0%nat] 0) /\
  panics (Slave (one_pdb 0)) = false.
Proof.
  assert (Hopen : Open (value := Z) Mock.sqlx_Open (mkSched [] 0) "mock" "" [] =
                  Ret (Some (mkDB [Some 0%nat] 0), None) [EvOpen "mock" ""])
    by reflexivity.
  assert (Hmax : len (pdbs (mkDB [Some 0%nat] 0)) <= GoInt.int_max)
    by (unfold len, GoInt.int_max; cbn [pdbs length]; lia).
  destruct (Open_at_least_one (value := Z) (reply := nat) Mock.sqlx_Open
              Mock.phys (mkSched [] 0) "mock" "" [])
    as (_ & _ & Hdb & Hsafe & _).
  destruct (Hdb _ _ Hopen) as (_ & _ & Hlive).
  split; [exact Hopen|]. split; [exact Hmax|]. split; [exact (Hlive Hmax)|].
  exact (proj1 (proj2 (Hsafe (one_pdb 0) (live_one 0 zero_is_uint64)))).
Defined.

(** ** More of the model at work *)

(** X8: whatever two physical layers answer, errors included, the same
    operations on the same live router make the same calls on the same
    physical databases in the same order and leave the same counter:
    there is no retry, no fallback and no slave taken out of rotation. *)
Theorem routing_ignores_answers
    {handle value reply1 reply2 err1 err2 : Type}
    (phys1 : list Event -> handle -> Call -> reply1)
    (reply_error1 : reply1 -> option err1)
    (phys2 : list Event -> handle -> Call -> reply2)
    (reply_error2 : reply2 -> option err2)
    (os : list (Op (value := value))) (w : World) :
  live (w_db w) ->
  exists outs1 outs2 w',
    run_ops phys1 reply_error1 os w = Ret outs1 w' /\
    run_ops phys2 reply_error2 os w = Ret outs2 w'.
Proof.
  intros Hlive.
  destruct (run_ops_route phys1 reply_error1 os w Hlive) as [outs1 H1].
  destruct (run_ops_route phys2 reply_error2 os w Hlive) as [outs2 H2].
  eauto.
Qed.

Lemma rotation_injective (c m j1 j2 : Z) :
  0 < m -> 0 <= j1 - j2 < m ->
  (c + j1) mod m = (c + j2) mod m -> j1 = j2.
Proof.
  intros Hm Hj Heq.
  pose proof (Z.div_mod (c + j1) m) as E1.
  pose proof (Z.div_mod (c + j2) m) as E2.
  rewrite Heq in E1.
  assert (Hd : j1 - j2 = m * ((c + j1) / m - (c + j2) / m)) by lia.
  assert ((c + j1) / m - (c + j2) / m = 0) by nia.
  lia.
Qed.

(** X9: with slaves present and the counter not about to wrap, as many reads
    in a row as there are slaves go to every slave exactly once. *)
Theorem slave_serves_every_slave_once {handle value : Type} (n : Z)
    (w : World (handle := handle) (value := value)) :
  1 < n <= GoInt.int_max ->
  0 <= count (w_db w) ->
  count (w_db w) + (n - 1) < 2 ^ 64 ->
  exists l w',
    slave_calls (Z.to_nat (n - 1)) n w = Ret l w' /\
    l ≡ₚ seqZ 1 (n - 1).
Proof.
  intros Hn Hc0 Hc. rewrite (slave_calls_run n Hn). eexists _, _.
  split; [reflexivity|].
  assert (Hcount : forall j : nat,
             (j <= Z.to_nat (n - 1))%nat ->
             count (Nat.iter j bump (w_db w)) = count (w_db w) + Z.of_nat j).
  { intros j Hj. rewrite iter_bump_count
      by (unfold GoInt.is_uint64, GoInt.uint64_mod; lia).
    apply Z.mod_small. lia. }
  rewrite map_fmap.
  apply submseteq_length_Permutation.
  - apply NoDup_submseteq.
    + apply NoDup_fmap_2_strong; [|apply NoDup_seq].
      intros j1 j2 H1 H2 Heq.
      apply elem_of_seq in H1, H2.
      rewrite !Hcount in Heq by lia.
      assert (Hmod : (count (w_db w) + Z.of_nat j1) mod (n - 1) =
                     (count (w_db w) + Z.of_nat j2) mod (n - 1)) by lia.
      destruct (Z.le_ge_cases (Z.of_nat j2) (Z.of_nat j1)) as [Hle|Hle].
      * apply (rotation_injective _ (n - 1)) in Hmod; lia.
      * symmetry in Hmod.
        apply (rotation_injective _ (n - 1)) in Hmod; lia.
    + intros x Hx. apply list_elem_of_fmap in Hx as (j & -> & Hj).
      apply elem_of_seq in Hj. apply elem_of_seqZ.
      pose proof (Z.mod_pos_bound (count (Nat.iter j bump (w_db w))) (n - 1)).
      lia.
  - rewrite length_seqZ, length_fmap, length_seq. lia.
Qed.

Lemma four_filled c :
  pdbs (w_db (four_pdbs c)) = Some <$> [10; 11; 12; 13]%nat.
Proof. reflexivity. Qed.

Lemma setters_reach_every_pdb_witness :
  pdbs (w_db (four_pdbs 0)) = Some <$> [10; 11; 12; 13]%nat /\
  SetMaxOpenConns Mock.phys 8 (four_pdbs 0) =
    Ret tt (mkWorld (w_db (four_pdbs 0))
              [EvCall 10%nat (CallSetMaxOpenConns 8);
               EvCall 11%nat (CallSetMaxOpenConns 8);
               EvCall 12%nat (CallSetMaxOpenConns 8);
               EvCall 13%nat (CallSetMaxOpenConns 8)]).
Proof.
  split; [reflexivity|].
  exact (proj1 (proj2 (setters_reach_every_pdb Mock.phys (four_pdbs 0)
                         [10; 11; 12; 13]%nat (four_filled 0))) 8).
Defined.

Lemma Close_reaches_every_pdb_witness :
  pdbs (w_db (four_pdbs 0)) = Some <$> [10; 11; 12; 13]%nat /\
  exists evs e,
    Close Mock.phys Mock.reply_error (mkSched [2%nat] 0) (four_pdbs 0) =
      Ret e (mkWorld (w_db (four_pdbs 0)) (w_trace (four_pdbs 0) ++ evs)) /\
    evs ≡ₚ (fun h => EvCall h CallClose) <$> [10; 11; 12; 13]%nat.
Proof.
  split; [reflexivity|].
  destruct (Close_reaches_every_pdb Mock.phys Mock.reply_error
              (mkSched [2%nat] 0) (four_pdbs 0) [10; 11; 12; 13]%nat
              (four_filled 0)) as (evs & e & Hrun & Hperm & _).
  exists evs, e. split; [exact Hrun | exact Hperm].
Defined.

Lemma Ping_reaches_every_pdb_witness :
  pdbs (w_db (four_pdbs 0)) = Some <$> [10; 11; 12; 13]%nat /\
  exists evs e,
    Ping Mock.phys Mock.reply_error (mkSched [3%nat; 1%nat] 0) (four_pdbs 0) =
      Ret e (mkWorld (w_db (four_pdbs 0)) (w_trace (four_pdbs 0) ++ evs)) /\
    evs ≡ₚ (fun h => EvCall h CallPing) <$> [10; 11; 12; 13]%nat.
Proof.
  split; [reflexivity|].
  destruct (Ping_reaches_every_pdb Mock.phys Mock.reply_error
              (mkSched [3%nat; 1%nat] 0) (four_pdbs 0) [10; 11; 12; 13]%nat
              (four_filled 0)) as (evs & e & Hrun & Hperm & _).
  exists evs, e. split; [exact Hrun | exact Hperm].
Defined.

Lemma no_pdbs_behaviour_witness :
  pdbs (w_db (mkWorld (handle := nat) (value := Z) (mkDB [] 0) [])) = [] /\
  Exec (value := Z) Mock.phys "x" [] (mkWorld (handle := nat) (mkDB [] 0) []) =
    Panic /\
  Slave (mkWorld (handle := nat) (value := Z) (mkDB [] 0) []) = Panic.
Proof.
  split; [reflexivity|].
  destruct (no_pdbs_behaviour Mock.phys Mock.reply_error (mkSched [] 0)
              (mkWorld (handle := nat) (value := Z) (mkDB [] 0) []) eq_refl)
    as (_ & HS & _ & _ & HE & _).
  split; [apply HE | exact HS].
Defined.

Lemma Open_segments_witness :
  Open (value := Z) Mock.sqlx_Open (mkSched [1%nat] 0) "mock" "a;bb" [] =
    Ret (Some (mkDB [Some 1%nat; Some 2%nat] 0), None)
        [EvOpen "mock" "bb"; EvOpen "mock" "a"] /\
  length (pdbs (mkDB [Some 1%nat; Some 2%nat] 0)) =
    S (occurrences semicolon "a;bb").
Proof.
  assert (Hopen : Open (value := Z) Mock.sqlx_Open (mkSched [1%nat] 0)
                    "mock" "a;bb" [] =
                  Ret (Some (mkDB [Some 1%nat; Some 2%nat] 0), None)
                      [EvOpen "mock" "bb"; EvOpen "mock" "a"])
    by reflexivity.
  split; [exact Hopen|].
  exact (proj1 (proj2 (proj2 (Open_segments (reply := nat) Mock.sqlx_Open
                                Mock.phys (mkSched [1%nat] 0)
                                "mock" "a;bb" [])) _ _ Hopen)).
Defined.

Lemma Open_then_Close_witness :
  Open (value := Z) Mock.sqlx_Open (mkSched [1%nat] 0) "mock" "a;bb" [] =
    Ret (Some (mkDB [Some 1%nat; Some 2%nat] 0), None)
        [EvOpen "mock" "bb"; EvOpen "mock" "a"] /\
  exists hs evs e,
    Forall2 (fun c h => Mock.sqlx_Open "mock" c = inl h)
            (Split "a;bb" semicolon) hs /\
    Close (value := Z) Mock.phys Mock.reply_error (mkSched [] 0)
      (mkWorld (mkDB [Some 1%nat; Some 2%nat] 0)
               [EvOpen "mock" "bb"; EvOpen "mock" "a"]) =
      Ret e (mkWorld (mkDB [Some 1%nat; Some 2%nat] 0)
               ([EvOpen "mock" "bb"; EvOpen "mock" "a"] ++ evs)) /\
    evs ≡ₚ (fun h => EvCall (value := Z) h CallClose) <$> hs.
Proof.
  assert (Hopen : Open (value := Z) Mock.sqlx_Open (mkSched [1%nat] 0)
                    "mock" "a;bb" [] =
                  Ret (Some (mkDB [Some 1%nat; Some 2%nat] 0), None)
                      [EvOpen "mock" "bb"; EvOpen "mock" "a"])
    by reflexivity.
  split; [exact Hopen|].
  exact (Open_then_Close Mock.sqlx_Open Mock.phys Mock.reply_error
           (mkSched [1%nat] 0) (mkSched [] 0) "mock" "a;bb" [] _ _ Hopen).
Defined.

Lemma run_ops_counter_witness :
  live (w_db (four_pdbs 0)) /\
  exists outs w',
    run_ops Mock.phys Mock.reply_error
      [OpSelect 0 "q" []; OpExec "x" []; OpSlave; OpPing (mkSched [] 0)]
      (four_pdbs 0) = Ret outs w' /\
    length outs = 4%nat /\
    pdbs (w_db w') = pdbs (w_db (four_pdbs 0)) /\
    count (w_db w') = 2.
Proof.
  assert (Hlive : live (w_db (four_pdbs 0)))
    by exact (live_four 0 zero_is_uint64).
  split; [exact Hlive|].
  exact (run_ops_counter Mock.phys Mock.reply_error
           [OpSelect 0 "q" []; OpExec "x" []; OpSlave; OpPing (mkSched [] 0)]
           (four_pdbs 0) Hlive).
Defined.

Lemma routing_ignores_answers_witness :
  live (w_db (four_pdbs 0)) /\
  exists outs1 outs2 w',
    run_ops Mock.phys Mock.reply_error
      [OpSelect 0 "q" []; OpPing (mkSched [] 0)] (four_pdbs 0) =
      Ret outs1 w' /\
    run_ops (fun _ _ _ => false) (fun _ : bool => Some "down"%string)
      [OpSelect 0 "q" []; OpPing (mkSched [] 0)] (four_pdbs 0) =
      Ret outs2 w'.
Proof.
  assert (Hlive : live (w_db (four_pdbs 0)))
    by exact (live_four 0 zero_is_uint64).
  split; [exact Hlive|].
  exact (routing_ignores_answers Mock.phys Mock.reply_error
           (fun _ _ _ => false) (fun _ : bool => Some "down"%string)
           [OpSelect 0 "q" []; OpPing (mkSched [] 0)] (four_pdbs 0) Hlive).
Defined.

Lemma slave_serves_every_slave_once_witness :
  1 < 4 <= GoInt.int_max /\
  0 <= count (w_db (four_pdbs 5)) /\
  count (w_db (four_pdbs 5)) + (4 - 1) < 2 ^ 64 /\
  exists l w',
    slave_calls (Z.to_nat (4 - 1)) 4 (four_pdbs 5) = Ret l w' /\
    l ≡ₚ seqZ 1 (4 - 1).
Proof.
  assert (Hn : 1 < 4 <= GoInt.int_max) by (unfold GoInt.int_max; lia).
  assert (H0 : 0 <= count (w_db (four_pdbs 5))) by (cbn [w_db count]; lia).
  assert (Hc : count (w_db (four_pdbs 5)) + (4 - 1) < 2 ^ 64)
    by (cbn [w_db count]; lia).
  split; [exact Hn|]. split; [exact H0|]. split; [exact Hc|].
  exact (slave_serves_every_slave_once 4 (four_pdbs 5) Hn H0 Hc).
Defined.

(** X10: when the number of slaves divides [2^64] the rotation goes on
    across the wrap of the counter: from any counter, call number [j] of
    any number of calls in a row returns [1 + (counter + j) mod (n-1)]. *)
Theorem rotation_survives_wrap {handle value : Type} (n : Z) (k : nat)
    (w : World (handle := handle) (value := value)) :
  1 < n <= GoInt.int_max ->
  (n - 1 | 2 ^ 64) ->
  GoInt.is_uint64 (count (w_db w)) ->
  exists w',
    slave_calls k n w =
      Ret (map (fun j => 1 + (count (w_db w) + Z.of_nat j) mod (n - 1))
               (seq 1 k)) w'.
Proof.
  intros Hn Hdiv Hc. rewrite (slave_calls_run n Hn). eexists.
  f_equal. apply map_ext. intros j.
  rewrite (iter_bump_count j (w_db w) Hc).
  rewrite (Z.mod_mod_divide _ (2 ^ 64) (n - 1) Hdiv). reflexivity.
Qed.

Lemma rotation_survives_wrap_witness :
  1 < 5 <= GoInt.int_max /\
  (5 - 1 | 2 ^ 64) /\
  GoInt.is_uint64 (2 ^ 64 - 2) /\
  exists w',
    slave_calls 4 5
      (mkWorld (handle := nat) (value := Z)
         (mkDB [Some 10; Some 11; Some 12; Some 13; Some 14]%nat (2 ^ 64 - 2))
         []) = Ret [4; 1; 2; 3] w'.
Proof.
  assert (Hn : 1 < 5 <= GoInt.int_max) by (unfold GoInt.int_max; lia).
  assert (Hd : (5 - 1 | 2 ^ 64)) by (exists (2 ^ 62); reflexivity).
  assert (Hc : GoInt.is_uint64 (2 ^ 64 - 2))
    by (unfold GoInt.is_uint64, GoInt.uint64_mod; lia).
  split; [exact Hn|]. split; [exact Hd|]. split; [exact Hc|].
  exact (rotation_survives_wrap 5 4
           (mkWorld (handle := nat) (value := Z)
              (mkDB [Some 10; Some 11; Some 12; Some 13; Some 14]%nat
                    (2 ^ 64 - 2)) []) Hn Hd Hc).
Defined.
